(** * cutevariant: the VQL query builder and command layer

    A shallow embedding of [cutevariant/core/querybuilder.py] and of the
    selection commands of [cutevariant/core/command.py].

    The Python code is dynamically typed: a filter tree is a nested [dict],
    a field is a [str] or a [tuple], a value is any object.  The embedding
    therefore works on a small universe of Python values, [pyval], and every
    operation that Python may refuse (a missing key, a method that a type does
    not have, an unpacking of the wrong length) returns in the [result]
    monad.  Text is modelled by [string]; character classes ([\w], [upper])
    follow Python on ASCII text. *)

From Stdlib Require Import String Ascii List ZArith Bool Arith Lia.
From Stdlib Require Import DecimalString.
From Stdlib Require Import Sorted.
Import ListNotations.

Local Open Scope list_scope.
Local Open Scope string_scope.

(* ================================================================== *)
(** * Python values *)
(* ================================================================== *)

Module Py.

(** The exceptions the modelled code can raise.  [VQLSyntaxError] is the
    exception class of [cutevariant.core.vql], [OperationalError] the one of
    [sqlite3]; the others are builtins. *)
Inductive exn : Type :=
| TypeError
| KeyError
| AttributeError
| ValueError
| IndexError
| UnboundLocalError
| OperationalError (msg : string)
| VQLSyntaxError (msg : string).

Inductive result (A : Type) : Type :=
| Ok (a : A)
| Raise (e : exn).

Arguments Ok {A} a.
Arguments Raise {A} e.

Definition bind {A B : Type} (c : result A) (k : A -> result B) : result B :=
  match c with
  | Ok a => k a
  | Raise e => Raise e
  end.

Notation "x <- c ;; k" := (bind c (fun x => k))
  (at level 61, c at next level, right associativity).

(** A list comprehension [[f(x) for x in l]]: evaluated left to right, the
    first exception aborts it. *)
Definition mapM {A B : Type} (f : A -> result B) : list A -> result (list B) :=
  fix each (l : list A) : result (list B) :=
    match l with
    | [] => Ok []
    | x :: r =>
        y <- f x ;;
        ys <- each r ;;
        Ok (y :: ys)
    end.

(** Python objects.  A [float] is carried by its [repr] text, which is all the
    code ever looks at; a [dict] (its keys are [str] in this code) is the list
    of its items in insertion order, keys pairwise distinct. *)
#[warnings="-register-all"] Inductive pyval : Type :=
| PNone
| PBool (b : bool)
| PInt (z : Z)
| PFloat (repr : string)
| PStr (s : string)
| PTuple (l : list pyval)
| PList (l : list pyval)
| PDict (items : list (string * pyval)).

(** ** Characters and text *)

Definition dquote : ascii := ascii_of_nat 34.
Definition squote : ascii := "'"%char.
Definition backslash : ascii := ascii_of_nat 92.

Definition str1 (c : ascii) : string := String c EmptyString.

(** [sub in s] on two [str]. *)
Fixpoint str_contains (sub s : string) : bool :=
  String.prefix sub s ||
  match s with
  | EmptyString => false
  | String _ s' => str_contains sub s'
  end.

Definition nonempty (s : string) : bool :=
  match s with
  | EmptyString => false
  | String _ _ => true
  end.

Fixpoint str_map (f : ascii -> ascii) (s : string) : string :=
  match s with
  | EmptyString => EmptyString
  | String c s' => String (f c) (str_map f s')
  end.

Definition is_lower (c : ascii) : bool :=
  (97 <=? nat_of_ascii c)%nat && (nat_of_ascii c <=? 122)%nat.

Definition upper_char (c : ascii) : ascii :=
  if is_lower c then ascii_of_nat (nat_of_ascii c - 32) else c.

(** [s.upper()] *)
Definition upper (s : string) : string := str_map upper_char s.

(** [sep.join(l)] on a list of [str]. *)
Definition join (sep : string) (l : list string) : string := String.concat sep l.

(** [\w] of the [re] module. *)
Definition is_word (c : ascii) : bool :=
  let n := nat_of_ascii c in
  ((48 <=? n) && (n <=? 57) || (65 <=? n) && (n <=? 90) ||
   (97 <=? n) && (n <=? 122) || (n =? 95))%nat.

(** The longest run of word characters at the head of [s], and what follows. *)
Fixpoint span_word (s : string) : string * string :=
  match s with
  | EmptyString => (EmptyString, EmptyString)
  | String c s' =>
      if is_word c
      then let (w, rest) := span_word s' in (String c w, rest)
      else (EmptyString, s)
  end.

(** ** [repr] and [str] *)

Definition string_of_Z (z : Z) : string := NilZero.string_of_int (Z.to_int z).

Definition hex_digit (n : nat) : ascii :=
  nth n ["0"; "1"; "2"; "3"; "4"; "5"; "6"; "7";
         "8"; "9"; "a"; "b"; "c"; "d"; "e"; "f"]%char "0"%char.

Definition hex_escape (n : nat) : string :=
  String backslash (String "x" (String (hex_digit (n / 16)) (str1 (hex_digit (n mod 16))))).

Definition repr_char (quote c : ascii) : string :=
  let n := nat_of_ascii c in
  if Ascii.eqb c quote || Ascii.eqb c backslash then String backslash (str1 c)
  else if (n =? 9)%nat then String backslash "t"
  else if (n =? 10)%nat then String backslash "n"
  else if (n =? 13)%nat then String backslash "r"
  else if (n <? 32)%nat || (n =? 127)%nat then hex_escape n
  else if (n <? 127)%nat then str1 c
  else if (n <=? 160)%nat || (n =? 173)%nat then hex_escape n
  else str1 c.

Fixpoint flat_map_str (f : ascii -> string) (s : string) : string :=
  match s with
  | EmptyString => EmptyString
  | String c s' => f c ++ flat_map_str f s'
  end.

(** [repr] of a [str]: single quotes, unless the text has a single quote and
    no double quote. *)
Definition repr_str (s : string) : string :=
  let quote :=
    if str_contains (str1 squote) s && negb (str_contains (str1 dquote) s)
    then dquote else squote in
  String quote (flat_map_str (repr_char quote) s ++ str1 quote).

Fixpoint py_repr (v : pyval) : string :=
  match v with
  | PNone => "None"
  | PBool true => "True"
  | PBool false => "False"
  | PInt z => string_of_Z z
  | PFloat r => r
  | PStr s => repr_str s
  | PTuple l =>
      match l with
      | [x] => "(" ++ py_repr x ++ ",)"
      | _ => "(" ++ join ", " (map py_repr l) ++ ")"
      end
  | PList l => "[" ++ join ", " (map py_repr l) ++ "]"
  | PDict items =>
      "{" ++ join ", "
               (map (fun kv => match kv with
                               | (k, x) => repr_str k ++ ": " ++ py_repr x
                               end) items) ++ "}"
  end.

(** [str(v)], which is also what an f-string and [%s] print. *)
Definition py_str (v : pyval) : string :=
  match v with
  | PStr s => s
  | _ => py_repr v
  end.

(** ** Truth value, [len], items, hashing *)

(** [bool(v)]: what [if v:] tests. *)
Definition truthy (v : pyval) : bool :=
  match v with
  | PNone => false
  | PBool b => b
  | PInt z => negb (z =? 0)%Z
  | PFloat r => negb (String.eqb r "0.0" || String.eqb r "-0.0")
  | PStr s => nonempty s
  | PTuple l | PList l => negb (length l =? 0)%nat
  | PDict items => negb (length items =? 0)%nat
  end.

(** [d[key]] on the items of a dict. *)
Fixpoint dict_get (key : string) (items : list (string * pyval)) : result pyval :=
  match items with
  | [] => Raise KeyError
  | (k, v) :: r => if String.eqb k key then Ok v else dict_get key r
  end.

(** [key in d] and [d[key]] for the two catalogues, dicts from names. *)
Fixpoint lookup {A : Type} (key : string) (d : list (string * A)) : option A :=
  match d with
  | [] => None
  | (k, v) :: r => if String.eqb k key then Some v else lookup key r
  end.

(** [v == s] for a [str] literal [s]: only a [str] compares equal to it. *)
Definition eq_str (v : pyval) (s : string) : bool :=
  match v with
  | PStr s' => String.eqb s' s
  | _ => false
  end.

Fixpoint hashable (v : pyval) : bool :=
  match v with
  | PList _ | PDict _ => false
  | PTuple l => forallb hashable l
  | _ => true
  end.

End Py.

Import Py.

(* ================================================================== *)
(** * cutevariant/core/querybuilder.py *)
(* ================================================================== *)

Module QueryBuilder.

Definition GENOTYPE_FUNC_NAME : string := "sample".
Definition SET_FUNC_NAME : string := "set".

(** ** [filters_to_flat] *)

(** The generator of [filters_to_flat].  A dict of three items is yielded;
    then the values of a dict, or the items of a list, are visited in
    order.  A tuple, a string or a number yields nothing. *)
Fixpoint recursive_generator (filters : pyval) : list pyval :=
  match filters with
  | PDict items =>
      ((if (length items =? 3)%nat then [filters] else []) ++
       flat_map (fun kv => match kv with
                           | (_, x) => recursive_generator x
                           end) items)%list
  | PList l => flat_map recursive_generator l
  | _ => []
  end.

Definition filters_to_flat (filters : pyval) : list pyval :=
  recursive_generator filters.

(** ** Fields *)

(** [field_function_to_sql]; the argument is the tuple's components. *)
Definition field_function_to_sql (field_function : list pyval) (use_as : bool)
  : result string :=
  match field_function with
  | [func_name; arg_name; field_name] =>
      let suffix :=
        if use_as
        then " AS '" ++ py_str func_name ++ "." ++ py_str arg_name ++ "."
                     ++ py_str field_name ++ "'"
        else EmptyString in
      if truthy field_name
      then Ok ("`" ++ py_str func_name ++ "_" ++ py_str arg_name ++ "`.`"
                   ++ py_str field_name ++ "`" ++ suffix)
      else Ok ("`" ++ py_str func_name ++ "_" ++ py_str arg_name ++ "`" ++ suffix)
  | _ => Raise ValueError
  end.

Definition set_function_to_sql (field_function : list pyval) : result string :=
  match field_function with
  | [func_name; arg_name] =>
      Ok ("(SELECT value FROM sets WHERE name = '" ++ py_str arg_name ++ "')")
  | _ => Raise ValueError
  end.

(** [re.match] of the pattern [^(\w+)\.(\w+)] on [field]: the two groups,
    when it matches. *)
Definition match_table_field (field : string) : option (string * string) :=
  let (table, rest) := span_word field in
  match table, rest with
  | String _ _, String "."%char rest' =>
      let (name, _) := span_word rest' in
      if nonempty name then Some (table, name) else None
  | _, _ => None
  end.

Definition fields_to_sql (field : pyval) (default_tables : list (string * string))
  (use_as : bool) : result string :=
  match field with
  | PTuple l => field_function_to_sql l use_as
  | PStr field =>
      match match_table_field field with
      | Some (table, field) => Ok ("`" ++ table ++ "`.`" ++ field ++ "`")
      | None =>
          match lookup field default_tables with
          | Some table => Ok ("`" ++ table ++ "`.`" ++ field ++ "`")
          | None => Ok ("`" ++ field ++ "`")
          end
      end
  | _ => Raise TypeError
  end.

(** ** [filters_to_sql] *)

(** The table of [str.maketrans]: the single and the double quote both go
    to the percent sign; and [str.translate]. *)
Definition quote_table : list (ascii * ascii) :=
  [(squote, "%"%char); (dquote, "%"%char)].

Fixpoint translate_char (table : list (ascii * ascii)) (c : ascii) : ascii :=
  match table with
  | [] => c
  | (k, v) :: r => if Ascii.eqb c k then v else translate_char r c
  end.

Definition translate (table : list (ascii * ascii)) (s : string) : string :=
  str_map (translate_char table) s.

(** The branch [is_field(node)] of [recursive], on the items of the node. *)
Definition condition_to_sql (default_tables : list (string * string))
  (node : list (string * pyval)) : result string :=
  field <- dict_get "field" node ;;
  value <- dict_get "value" node ;;
  operator <- dict_get "operator" node ;;
  operator <- match operator with
              | PStr o => Ok (upper o)
              | _ => Raise AttributeError
              end ;;
  let value := match value with
               | PStr s => PStr ("'" ++ s ++ "'")
               | _ => value
               end in
  value <- match value with
           | PTuple [] => Raise IndexError
           | PTuple (x :: r) =>
               if eq_str x SET_FUNC_NAME
               then q <- set_function_to_sql (x :: r) ;; Ok (PStr q)
               else Ok value
           | _ => Ok value
           end ;;
  let operator := if String.eqb operator "~" then "REGEXP" else operator in
  ov <- (if String.eqb operator "HAS"
         then match value with
              | PStr s => Ok ("LIKE", PStr ("'" ++ translate quote_table s ++ "'"))
              | _ => Raise AttributeError
              end
         else Ok (operator, value)) ;;
  let operator := fst ov in
  let value := snd ov in
  field <- fields_to_sql field default_tables false ;;
  value <- (if String.eqb operator "IN" || String.eqb operator "NOT IN"
            then Ok value
            else match value with
                 | PList l =>
                     items <- mapM (fun x => match x with
                                             | PStr s => Ok s
                                             | _ => Raise TypeError
                                             end) l ;;
                     Ok (PStr ("(" ++ join "," items ++ ")"))
                 | _ => Ok (PStr (py_str value))
                 end) ;;
  Ok (field ++ " " ++ operator ++ " " ++ py_str value).

(** What [recursive] does with an object that has a length but is no dict:
    the subscript by a key, or [node.keys()], is refused. *)
Definition not_a_node (len : nat) : result string :=
  if (len =? 3)%nat then Raise TypeError else Raise AttributeError.

(** [recursive] on a [str]. *)
Definition recursive_str (s : string) : result string :=
  if nonempty s then not_a_node (String.length s) else Ok EmptyString.

Definition chars (s : string) : list string := map str1 (list_ascii_of_string s).

Fixpoint recursive (default_tables : list (string * string)) (node : pyval)
  : result string :=
  if negb (truthy node) then Ok EmptyString
  else
    match node with
    | PDict items =>
        if (length items =? 3)%nat then condition_to_sql default_tables items
        else
          match items with
          | [] => Ok EmptyString
          | (logic_op, children) :: _ =>
              out <- match children with
                     | PList l | PTuple l => mapM (recursive default_tables) l
                     | PDict kvs => mapM recursive_str (map fst kvs)
                     | PStr s => mapM recursive_str (chars s)
                     | _ => Raise TypeError
                     end ;;
              if (length out =? 1)%nat
              then Ok (join (" " ++ logic_op ++ " ") out)
              else Ok ("(" ++ join (" " ++ logic_op ++ " ") out ++ ")")
          end
    | PStr s => not_a_node (String.length s)
    | PTuple l | PList l => not_a_node (length l)
    | _ => Raise TypeError
    end.

Definition filters_to_sql (filters : pyval) (default_tables : list (string * string))
  : result string :=
  recursive default_tables filters.

(** ** [build_query] *)

(** The pieces of text [build_query] appends to [sql_query], in the order it
    appends them. *)
Inductive clause : Type :=
| Select (sql_fields : list string)
| From
| JoinAnnotations
| JoinSelection (source : string)
| JoinSample (sample_name : string) (sample_id : Z)
| Where (where_clause : string)
| GroupBy (group_by : list string)
| OrderBy (order_by orientation : string)
| LimitOffset (limit offset : pyval).

(** The text of each piece, as the f-strings of [build_query] write it. *)
Definition clause_sql (c : clause) : string :=
  match c with
  | Select sql_fields => "SELECT " ++ join "," sql_fields ++ " "
  | From => "FROM variants"
  | JoinAnnotations =>
      " LEFT JOIN annotations ON annotations.variant_id = variants.id"
  | JoinSelection source =>
      " INNER JOIN selection_has_variant sv ON sv.variant_id = variants.id "
      ++ "INNER JOIN selections s ON s.id = sv.selection_id AND s.name = '"
      ++ source ++ "'"
  | JoinSample sample_name sample_id =>
      " INNER JOIN sample_has_variant `" ++ GENOTYPE_FUNC_NAME ++ "_" ++ sample_name
      ++ "` ON `" ++ GENOTYPE_FUNC_NAME ++ "_" ++ sample_name
      ++ "`.variant_id = variants.id AND `" ++ GENOTYPE_FUNC_NAME ++ "_"
      ++ sample_name ++ "`.sample_id = " ++ string_of_Z sample_id
  | Where where_clause => " WHERE " ++ where_clause
  | GroupBy group_by => " GROUP BY " ++ join "," group_by
  | OrderBy order_by orientation => " ORDER BY " ++ order_by ++ " " ++ orientation
  | LimitOffset limit offset =>
      " LIMIT " ++ py_str limit ++ " OFFSET " ++ py_str offset
  end.

(** The test [(id) in col], with the literal [id] on the left: a substring
    test on a [str], a membership test on a tuple, a list or the keys of a
    dict. *)
Definition contains_id (col : pyval) : result bool :=
  match col with
  | PStr s => Ok (str_contains "id" s)
  | PTuple l | PList l => Ok (existsb (fun x => eq_str x "id") l)
  | PDict items => Ok (existsb (fun kv => String.eqb (fst kv) "id") items)
  | _ => Raise TypeError
  end.

(** The comprehension over [fields] that builds the requested columns. *)
Fixpoint requested_columns (default_tables : list (string * string))
  (fields : list pyval) : result (list string) :=
  match fields with
  | [] => Ok []
  | col :: r =>
      skip <- contains_id col ;;
      if skip then requested_columns default_tables r
      else
        c <- fields_to_sql col default_tables true ;;
        cs <- requested_columns default_tables r ;;
        Ok (c :: cs)
  end.

(** [l.insert(i, x)] *)
Fixpoint insert {A : Type} (i : nat) (x : A) (l : list A) : list A :=
  match i, l with
  | O, _ => x :: l
  | S _, [] => [x]
  | S i', y :: r => y :: insert i' x r
  end.

Definition is_nil {A : Type} (l : list A) : bool :=
  match l with
  | [] => true
  | _ :: _ => false
  end.

Definition sql_fields (fields : list pyval) (group_by : list string)
  (default_tables : list (string * string)) : result (list string) :=
  cols <- requested_columns default_tables fields ;;
  let sql_fields := "`variants`.`id`" :: cols in
  if negb (is_nil group_by)
  then Ok (insert 1 "COUNT(`variants`.`id`) as 'count'" sql_fields)
  else Ok sql_fields.

(** [node[key]] *)
Definition getitem (node : pyval) (key : string) : result pyval :=
  match node with
  | PDict items => dict_get key items
  | _ => Raise TypeError
  end.

Definition fields_in_filters (filters : pyval)
  (default_tables : list (string * string)) : result (list string) :=
  mapM (fun i => field <- getitem i "field" ;; fields_to_sql field default_tables false)
       (filters_to_flat filters).

Definition need_join_annotations (cols : list string) : bool :=
  existsb (str_contains "annotations") cols.

(** The loop that collects the sample names of the genotype functions. *)
Fixpoint samples (all_fields : list pyval) : result (list pyval) :=
  match all_fields with
  | [] => Ok []
  | PTuple [] :: _ => Raise IndexError
  | PTuple (func :: args) :: r =>
      if eq_str func GENOTYPE_FUNC_NAME
      then match args with
           | [] => Raise IndexError
           | sample_name :: _ =>
               rest <- samples r ;;
               Ok (sample_name :: rest)
           end
      else samples r
  | _ :: r => samples r
  end.

Section Emit.

(** [build_query] is written once, over the way a piece is added to the
    query: as text, which is the function of the source, or as an item of
    the list of pieces. *)
Variable query : Type.
Variable emit : query -> clause -> query.

(** The loop that joins the samples found in [samples_ids]. *)
Fixpoint join_samples (samples_ids : list (string * Z)) (samples : list pyval)
  (sql_query : query) : result query :=
  match samples with
  | [] => Ok sql_query
  | sample_name :: r =>
      if hashable sample_name
      then
        join_samples samples_ids r
          match sample_name with
          | PStr name =>
              match lookup name samples_ids with
              | Some sample_id => emit sql_query (JoinSample name sample_id)
              | None => sql_query
              end
          | _ => sql_query
          end
      else Raise TypeError
  end.

Definition build_query_on (sql_query : query)
  (fields : list pyval) (source : string) (filters : pyval)
  (order_by : pyval) (order_desc : bool) (limit offset : pyval)
  (group_by : list string) (default_tables : list (string * string))
  (samples_ids : list (string * Z)) : result query :=
  sql_fields <- sql_fields fields group_by default_tables ;;
  let sql_query := emit sql_query (Select sql_fields) in
  let sql_query := emit sql_query From in
  fields_in_filters <- fields_in_filters filters default_tables ;;
  let sql_query :=
    if need_join_annotations (sql_fields ++ fields_in_filters)%list
    then emit sql_query JoinAnnotations else sql_query in
  let sql_query :=
    if negb (String.eqb source "variants")
    then emit sql_query (JoinSelection source) else sql_query in
  let all_fields := (map PStr fields_in_filters ++ fields)%list in
  samples <- samples all_fields ;;
  sql_query <- join_samples samples_ids samples sql_query ;;
  sql_query <-
    (if truthy filters
     then
       where_clause <- filters_to_sql filters default_tables ;;
       if nonempty where_clause && negb (String.eqb where_clause "()")
       then Ok (emit sql_query (Where where_clause)) else Ok sql_query
     else Ok sql_query) ;;
  let sql_query :=
    if negb (is_nil group_by)
    then emit sql_query (GroupBy group_by) else sql_query in
  sql_query <-
    (if truthy order_by
     then
       let orientation := if order_desc then "DESC" else "ASC" in
       order_by <- fields_to_sql order_by default_tables false ;;
       Ok (emit sql_query (OrderBy order_by orientation))
     else Ok sql_query) ;;
  let sql_query :=
    if truthy limit
    then emit sql_query (LimitOffset limit offset) else sql_query in
  Ok sql_query.

End Emit.

(** [sql_query += ...] *)
Definition add_text (sql_query : string) (c : clause) : string :=
  sql_query ++ clause_sql c.

(** The function of the source: [sql_query] is a [str], and a piece is added
    with [+=]. *)
Definition build_query := build_query_on string add_text EmptyString.

(** The same run, keeping the pieces apart. *)
Definition snoc (q : list clause) (c : clause) : list clause := (q ++ [c])%list.

Definition build_query_clauses := build_query_on (list clause) snoc [].

Definition render (q : list clause) : string :=
  fold_left add_text q EmptyString.

(** ** [filters_to_vql] *)

(** The branch [is_field(node)] of the [recursive] of [filters_to_vql]: the
    field, the operator and the value are printed as they are, a [str] value
    between quotes. *)
Definition condition_to_vql (node : list (string * pyval)) : result string :=
  field <- dict_get "field" node ;;
  value <- dict_get "value" node ;;
  operator <- dict_get "operator" node ;;
  let value := match value with
               | PStr s => PStr ("'" ++ s ++ "'")
               | _ => value
               end in
  Ok (py_str field ++ " " ++ py_str operator ++ " " ++ py_str value).

(** The [recursive] of [filters_to_vql]. *)
Fixpoint recursive_vql (node : pyval) : result string :=
  if negb (truthy node) then Ok EmptyString
  else
    match node with
    | PDict items =>
        if (length items =? 3)%nat then condition_to_vql items
        else
          match items with
          | [] => Ok EmptyString
          | (logic_op, children) :: _ =>
              out <- match children with
                     | PList l | PTuple l => mapM recursive_vql l
                     | PDict kvs => mapM recursive_str (map fst kvs)
                     | PStr s => mapM recursive_str (chars s)
                     | _ => Raise TypeError
                     end ;;
              Ok ("(" ++ join (" " ++ logic_op ++ " ") out ++ ")")
          end
    | PStr s => not_a_node (String.length s)
    | PTuple l | PList l => not_a_node (length l)
    | _ => Raise TypeError
    end.

Definition filters_to_vql (filters : pyval) : result string :=
  recursive_vql filters.

End QueryBuilder.

Import QueryBuilder.

(* ================================================================== *)
(** * cutevariant/core/command.py *)
(* ================================================================== *)

Module Command.

(** The storage layer: the functions of [cutevariant.core.sql] and of the
    [sqlite3] connection that the commands call.  They are not part of the
    command layer and are taken as an interface.  [conn] is the state of the
    database seen through the connection and its cursor; a call that fails
    raises and leaves no new state. *)
Class Storage (conn : Type) : Type := {
  (** [sql.get_fields]: the [name] and [category] of each row *)
  get_fields : conn -> result (list (string * string));
  (** [sql.get_samples]: the [name] and [id] of each row *)
  get_samples : conn -> result (list (string * Z));
  count_query : conn -> string -> result Z;
  insert_selection : conn -> string -> string -> Z -> result (conn * Z);
  create_selection_has_variant_indexes : conn -> result conn;
  union_variants : string -> string -> string;
  subtract_variants : string -> string -> string;
  intersect_variants : string -> string -> string;
  (** [conn.execute] and [cursor.execute] *)
  execute : conn -> string -> result conn;
  commit : conn -> result conn;
  (** [cursor.rowcount] and [cursor.lastrowid] *)
  rowcount : conn -> Z;
  lastrowid : conn -> Z
}.

(** [d[k] = v] on the items of a dict. *)
Fixpoint dict_set {A : Type} (k : string) (v : A) (d : list (string * A))
  : list (string * A) :=
  match d with
  | [] => [(k, v)]
  | (k', v') :: r =>
      if String.eqb k' k then (k, v) :: r else (k', v') :: dict_set k v r
  end.

(** [dict(pairs)] *)
Definition dict_of {A : Type} (pairs : list (string * A)) : list (string * A) :=
  fold_left (fun d kv => dict_set (fst kv) (snd kv) d) pairs [].

Definition newline : string := String (ascii_of_nat 10) EmptyString.

(** The statement that fills [selection_has_variant]. *)
Definition insert_query (selection_id : Z) (sql_query : string) : string :=
  newline ++ "    INSERT INTO selection_has_variant" ++
  newline ++ "    SELECT DISTINCT id, " ++ string_of_Z selection_id ++
  " FROM (" ++ sql_query ++ ")" ++ newline ++ "    ".

Definition success : pyval := PDict [("success", PBool true)].

Section Commands.

Context {conn : Type} {storage : Storage conn}.

(** [try: cursor.execute(DROP INDEX ...) except sqlite3.OperationalError: pass] *)
Definition drop_index (c : conn) : result conn :=
  match execute c "DROP INDEX idx_selection_has_variant" with
  | Ok c' => Ok c'
  | Raise (OperationalError _) => Ok c
  | Raise e => Raise e
  end.

(** The end shared by [create_cmd] and [set_cmd]: count, insert the selection,
    fill the membership table between the drop and the rebuild of its index,
    commit. *)
Definition materialize (c : conn) (target sql_query : string)
  : result (conn * pyval) :=
  count <- count_query c sql_query ;;
  inserted <- insert_selection c sql_query target count ;;
  let c := fst inserted in
  let selection_id := snd inserted in
  let q := insert_query selection_id sql_query in
  c <- drop_index c ;;
  c <- execute c q ;;
  c <- create_selection_has_variant_indexes c ;;
  c <- commit c ;;
  if negb (rowcount c =? 0)%Z
  then Ok (c, PDict [("id", PInt (lastrowid c))])
  else Ok (c, PDict []).

Definition drop_cmd (c : conn) (feature name : string) : result (conn * pyval) :=
  let accept_features := ["selections"; "sets"] in
  if negb (existsb (String.eqb feature) accept_features)
  then Raise (VQLSyntaxError (feature ++ " doesn't exists"))
  else if String.eqb feature "selections"
  then
    c <- execute c ("DELETE FROM selections WHERE name = '" ++ name ++ "'") ;;
    c <- commit c ;;
    Ok (c, success)
  else if String.eqb feature "sets"
  then
    c <- execute c ("DELETE FROM sets WHERE name = '" ++ name ++ "'") ;;
    c <- commit c ;;
    Ok (c, success)
  else Ok (c, PNone).

(** [target] is [None] or a name. *)
Definition create_cmd (c : conn) (target : option string) (source : string)
  (filters : pyval) : result (conn * pyval) :=
  fields <- get_fields c ;;
  let default_tables := dict_of fields in
  samples <- get_samples c ;;
  let samples_ids := dict_of samples in
  match target with
  | None => Ok (c, PDict [])
  | Some target =>
      sql_query <- build_query [PStr "id"] source filters PNone true PNone (PInt 0)
                     [] default_tables samples_ids ;;
      materialize c target sql_query
  end.

Definition set_cmd (c : conn) (target first second operator : option string)
  : result (conn * pyval) :=
  match target, first, second, operator with
  | Some target, Some first, Some second, Some operator =>
      query_first <- build_query [PStr "id"] first (PDict []) PNone true PNone
                       (PInt 0) [] [] [] ;;
      query_second <- build_query [PStr "id"] second (PDict []) PNone true PNone
                        (PInt 0) [] [] [] ;;
      let sql_query : option string := None in
      let sql_query :=
        if String.eqb operator "+"
        then Some (union_variants query_first query_second) else sql_query in
      let sql_query :=
        if String.eqb operator "-"
        then Some (subtract_variants query_first query_second) else sql_query in
      let sql_query :=
        if String.eqb operator "&"
        then Some (intersect_variants query_first query_second) else sql_query in
      match sql_query with
      | None => Raise UnboundLocalError
      | Some sql_query => materialize c target sql_query
      end
  | _, _, _, _ => Ok (c, PDict [])
  end.

End Commands.

(** ** [select_cmd] and [count_cmd] *)

(** What [conn.execute(query)] gives back to a reader: the rows, each as the
    dict [dict(i)]; and the first column of the first row, which is
    [fetchone()[0]]. *)
Class Reader (conn : Type) : Type := {
  fetch_all : conn -> string -> result (list pyval);
  fetch_one : conn -> string -> result pyval
}.

(** The parameters of [build_query]; it has no [**kwargs]. *)
Definition build_query_parameters : list string :=
  ["fields"; "source"; "filters"; "order_by"; "order_desc"; "limit"; "offset";
   "group_by"; "default_tables"; "samples_ids"].

(** A call that passes its arguments by keyword: a keyword that names no
    parameter is refused with [TypeError] before the body runs. *)
Definition call_by_keywords {A : Type} (parameters keywords : list string)
  (body : result A) : result A :=
  if forallb (fun k => existsb (String.eqb k) parameters) keywords
  then body else Raise TypeError.

Section Queries.

Context {conn : Type} {storage : Storage conn} {reader : Reader conn}.

(** The rows [select_cmd] yields, in order. *)
Definition select_cmd (c : conn) (fields : list pyval) (source : string)
  (filters order_by : pyval) (order_desc : bool) (group_by : list string)
  (having limit offset : pyval) : result (list pyval) :=
  fields_rows <- get_fields c ;;
  let default_tables := dict_of fields_rows in
  samples_rows <- get_samples c ;;
  let samples_ids := dict_of samples_rows in
  query <- call_by_keywords build_query_parameters
             ["fields"; "source"; "filters"; "order_by"; "order_desc"; "limit";
              "offset"; "group_by"; "having"; "default_tables"; "samples_ids"]
             (build_query fields source filters order_by order_desc limit offset
                          group_by default_tables samples_ids) ;;
  fetch_all c query.

(** The body of [count_cmd], as it runs on a call for which the cache of the
    decorator holds no answer. *)
Definition count_cmd (c : conn) (fields : list pyval) (source : string)
  (filters : pyval) (group_by : list string) (having : pyval) : result pyval :=
  fields_rows <- get_fields c ;;
  let default_tables := dict_of fields_rows in
  samples_rows <- get_samples c ;;
  let samples_ids := dict_of samples_rows in
  query <- call_by_keywords build_query_parameters
             ["fields"; "source"; "filters"; "limit"; "offset"; "order_desc";
              "order_by"; "group_by"; "having"; "default_tables"; "samples_ids"]
             (build_query fields source filters PNone false PNone PNone
                          group_by default_tables samples_ids) ;;
  let query := "SELECT COUNT (*) FROM (  " ++ query ++ ")" in
  count <- fetch_one c query ;;
  Ok (PDict [("count", count)]).

End Queries.

(** ** A store for examples *)

(** Modelled from the spec: the storage layer ([cutevariant.core.sql] and the
    [sqlite3] connection), which is not part of the sources at hand; the
    spec only gives its interface.  Two tables of names and the two
    catalogues. *)
Record memdb : Type := {
  fields_table : list (string * string);
  samples_table : list (string * Z);
  selections_table : list string;
  sets_table : list string
}.

(** Modelled from the spec: the database engine behind the connection, for
    the one statement [drop_cmd] writes, the delete by name.  The engine is no
    part of the sources at hand.

    [read_literal] reads a string literal of SQL after its opening quote: the
    characters up to the closing quote, a doubled quote standing for one
    quote.  It gives the text of the literal and what follows the closing
    quote, and nothing when the literal is not closed. *)
Fixpoint read_literal (s : string) : option (string * string) :=
  match s with
  | EmptyString => None
  | String c r =>
      if Ascii.eqb c squote
      then
        match r with
        | String c' r' =>
            if Ascii.eqb c' squote
            then option_map (fun p => (String squote (fst p), snd p))
                            (read_literal r')
            else Some (EmptyString, r)
        | EmptyString => Some (EmptyString, EmptyString)
        end
      else option_map (fun p => (String c (fst p), snd p)) (read_literal r)
  end.

(** [s] holds the null character. *)
Fixpoint has_nul (s : string) : bool :=
  match s with
  | EmptyString => false
  | String c s' => Ascii.eqb c Ascii.zero || has_nul s'
  end.

(** What is left of [s] after the text [p] at its head. *)
Fixpoint strip_prefix (p s : string) : option string :=
  match p, s with
  | EmptyString, _ => Some s
  | String a p', String b s' => if Ascii.eqb a b then strip_prefix p' s' else None
  | String _ _, EmptyString => None
  end.

(** Modelled from the spec: what the engine makes of a text.  Of the deletes
    it reads the delete by name, whose name is one literal; a delete of
    another form is refused, as a text that is no SQL is.  The message of the
    refusal is the one of the model. *)
Inductive statement : Type :=
| DeleteByName (table name : string)
| Refused (msg : string)
| OtherStatement.

Definition read_statement (sql : string) : statement :=
  match strip_prefix "DELETE FROM " sql with
  | None => OtherStatement
  | Some s =>
      let (table, s) := span_word s in
      match strip_prefix " WHERE name = '" s with
      | None => Refused "syntax error"
      | Some s =>
          match read_literal s with
          | Some (name, EmptyString) => DeleteByName table name
          | Some (_, String _ _) => Refused "syntax error"
          | None => Refused "unrecognized token"
          end
      end
  end.

(** The rows of a table of names that are left by the delete of [name]. *)
Definition remove_named (name : string) (rows : list string) : list string :=
  filter (fun row => negb (String.eqb row name)) rows.

(** Modelled from the spec: the delete by name on the two tables of names;
    a table the store does not have is an error of the engine. *)
Definition delete_by_name (table name : string) (db : memdb) : result memdb :=
  if String.eqb table "selections"
  then Ok {| fields_table := fields_table db;
             samples_table := samples_table db;
             selections_table := remove_named name (selections_table db);
             sets_table := sets_table db |}
  else if String.eqb table "sets"
  then Ok {| fields_table := fields_table db;
             samples_table := samples_table db;
             selections_table := selections_table db;
             sets_table := remove_named name (sets_table db) |}
  else Raise (OperationalError ("no such table: " ++ table)).

(** Modelled from the spec: the storage functions on the store above.  The
    connection refuses a text that holds a null character before the engine
    sees it, with [ValueError].  A delete by name deletes the rows of that
    name, a text the engine refuses raises its error, and any other statement
    leaves the two tables as they are; the set operations write the SQL set
    operators. *)
#[export] Instance memdb_storage : Storage memdb := {
  get_fields db := Ok (fields_table db);
  get_samples db := Ok (samples_table db);
  count_query _ _ := Ok 0%Z;
  insert_selection db _ name _ :=
    Ok ({| fields_table := fields_table db;
           samples_table := samples_table db;
           selections_table := (selections_table db ++ [name])%list;
           sets_table := sets_table db |},
        Z.of_nat (S (length (selections_table db))));
  create_selection_has_variant_indexes db := Ok db;
  union_variants a b := a ++ " UNION " ++ b;
  subtract_variants a b := a ++ " EXCEPT " ++ b;
  intersect_variants a b := a ++ " INTERSECT " ++ b;
  execute db sql :=
    if has_nul sql then Raise ValueError
    else
      match read_statement sql with
      | DeleteByName table name => delete_by_name table name db
      | Refused msg => Raise (OperationalError msg)
      | OtherStatement => Ok db
      end;
  commit db := Ok db;
  rowcount _ := 0%Z;
  lastrowid db := Z.of_nat (length (selections_table db))
}.

(** Modelled from the spec: what a reader gets from the store above, which
    holds no variant: no row, and a count of zero. *)
#[export] Instance memdb_reader : Reader memdb := {
  fetch_all _ _ := Ok [];
  fetch_one _ _ := Ok (PInt 0)
}.

Definition example_db : memdb :=
  {| fields_table := [("chr", "variants"); ("gene", "annotations")];
     samples_table := [("alice", 1%Z)];
     selections_table := ["A"; "B"];
     sets_table := ["genes"] |}.

End Command.

Import Command.

(* ================================================================== *)
(** * The filter tree of the data model *)
(* ================================================================== *)

(** The well-formed filter trees: a logic node holds an operator and a list
    of children, a condition node holds exactly a field, an operator and a
    value.  [to_dict] is the nested dict that stands for a tree. *)
Module FilterTree.

Inductive logic_op : Type := AND | OR.

Definition logic_name (o : logic_op) : string :=
  match o with
  | AND => "AND"
  | OR => "OR"
  end.

Inductive scalar : Type :=
| SInt (z : Z)
| SFloat (repr : string)
| SStr (s : string)
| SBool (b : bool).

(** A field is a name, bare or qualified by a table, or a function call
    such as the genotype of a sample. *)
Inductive field_ref : Type :=
| Name (name : string)
| Function (func arg field : string).

(** A value is a scalar, a sequence of scalars (a tuple from the parser, a
    list from an editor), or the call that names a set. *)
Inductive value : Type :=
| Scalar (x : scalar)
| Sequence (l : list scalar)
| Items (l : list scalar)
| NamedSet (func name : string).

#[warnings="-register-all"] Inductive FilterNode : Type :=
| LogicNode (operator : logic_op) (children : list FilterNode)
| ConditionNode (field : field_ref) (operator : string) (v : value).

Definition scalar_to_py (x : scalar) : pyval :=
  match x with
  | SInt z => PInt z
  | SFloat r => PFloat r
  | SStr s => PStr s
  | SBool b => PBool b
  end.

Definition field_to_py (f : field_ref) : pyval :=
  match f with
  | Name name => PStr name
  | Function func arg field => PTuple [PStr func; PStr arg; PStr field]
  end.

Definition value_to_py (v : value) : pyval :=
  match v with
  | Scalar x => scalar_to_py x
  | Sequence l => PTuple (map scalar_to_py l)
  | Items l => PList (map scalar_to_py l)
  | NamedSet func name => PTuple [PStr func; PStr name]
  end.

Fixpoint to_dict (t : FilterNode) : pyval :=
  match t with
  | LogicNode operator children =>
      PDict [(logic_name operator, PList (map to_dict children))]
  | ConditionNode field operator v =>
      PDict [("field", field_to_py field); ("operator", PStr operator);
             ("value", value_to_py v)]
  end.

(** The leaf conditions of a tree, in pre-order. *)
Fixpoint leaves (t : FilterNode) : list FilterNode :=
  match t with
  | LogicNode _ children => flat_map leaves children
  | ConditionNode _ _ _ => [t]
  end.

(** The number of leaf conditions of a tree. *)
Fixpoint count_conditions (t : FilterNode) : nat :=
  match t with
  | LogicNode _ children => list_sum (map count_conditions children)
  | ConditionNode _ _ _ => 1
  end.

(** Induction on a tree, with the property known of every child. *)
Fixpoint FilterNode_induction (P : FilterNode -> Prop)
  (Hlogic : forall operator children,
      Forall P children -> P (LogicNode operator children))
  (Hcond : forall field operator v, P (ConditionNode field operator v))
  (t : FilterNode) : P t :=
  match t with
  | LogicNode operator children =>
      Hlogic operator children
        ((fix all (l : list FilterNode) : Forall P l :=
            match l with
            | [] => Forall_nil P
            | c :: r =>
                Forall_cons c (FilterNode_induction P Hlogic Hcond c) (all r)
            end) children)
  | ConditionNode field operator v => Hcond field operator v
  end.

End FilterTree.

Import FilterTree.

(* ================================================================== *)
(** * cutevariant/gui/plugins/filters_editor/widgets.py: the items *)
(* ================================================================== *)

(** The tree of [FilterItem] behind the filter editor, and the two functions
    of [FilterModel] that read it from, and write it to, the nested dict of
    the editor: a logic node is a dict from [$and] or [$or] to the list of
    its children, a condition is a dict from a field to a value, or to a dict
    from an operator to a value. *)
Module FiltersEditor.

(** [FilterItem.data]: the operator of a logic item, a [str]; or the list
    [field, operator, value] of a condition item.  The type of an item,
    [LOGIC_TYPE] or [CONDITION_TYPE], is the kind of its data. *)
Inductive item_data : Type :=
| Logic (operator : string)
| Condition (field operator : string) (value : pyval).

(** A [FilterItem], without the link to its parent and without its [uuid],
    which no function below reads. *)
#[warnings="-register-all"] Inductive FilterItem : Type :=
| Item (data : item_data) (checked : bool) (children : list FilterItem).

Definition is_checked (item : FilterItem) : bool :=
  match item with
  | Item _ checked _ => checked
  end.

(** [FilterItem(data)]: checked, no child. *)
Definition new_item (data : item_data) : FilterItem := Item data true [].

(** [keys[0] in ($and, $or)] *)
Definition is_logic_key (key : string) : bool :=
  String.eqb key "$and" || String.eqb key "$or".

(** [FilterModel.to_item] *)
Fixpoint to_item (data : pyval) : result FilterItem :=
  match data with
  | PDict [] => Raise IndexError
  | PDict ((key, value) :: _) =>
      if is_logic_key key
      then
        children <- match value with
                    | PList l | PTuple l => mapM to_item l
                    | PDict [] => Ok []
                    | PDict (_ :: _) => Raise AttributeError
                    | PStr s => if nonempty s then Raise AttributeError else Ok []
                    | _ => Raise TypeError
                    end ;;
        Ok (Item (Logic key) true children)
      else
        match value with
        | PDict [] => Raise IndexError
        | PDict ((k, v) :: _) => Ok (new_item (Condition key k v))
        | _ => Ok (new_item (Condition key "$eq" value))
        end
  | _ => Raise AttributeError
  end.

(** [FilterModel.to_dict] on an item, in a model whose root has a child. *)
Fixpoint item_to_dict (item : FilterItem) : pyval :=
  match item with
  | Item (Logic operator) checked children =>
      if checked
      then PDict [(operator,
                   PList ((fix each (l : list FilterItem) : list pyval :=
                             match l with
                             | [] => []
                             | child :: r =>
                                 if is_checked child
                                 then item_to_dict child :: each r
                                 else each r
                             end) children))]
      else PNone
  | Item (Condition field operator value) _ _ =>
      if String.eqb operator "$eq"
      then PDict [(field, value)]
      else PDict [(field, PDict [(operator, value)])]
  end.

(** [FilterModel.to_dict(item)]; the model is the list of the children of its
    root item. *)
Definition to_dict (root_children : list FilterItem) (item : option FilterItem)
  : pyval :=
  match root_children with
  | [] => PDict []
  | first :: _ =>
      item_to_dict match item with
                   | None => first
                   | Some item => item
                   end
  end.

(** [FilterModel.load]: an empty dict leaves the model as it is. *)
Definition load (root_children : list FilterItem) (data : pyval)
  : result (list FilterItem) :=
  if truthy data
  then item <- to_item data ;; Ok [item]
  else Ok root_children.

(** The property [filters]: its getter. *)
Definition filters (root_children : list FilterItem) : pyval :=
  to_dict root_children None.

(** The dicts of the filter editor in the form [to_dict] writes them: a
    logic node has one key and a list of children, a condition has one key;
    the operator [$eq] is left out, and a value given without an operator is
    no dict. *)
Fixpoint normal (d : pyval) : bool :=
  match d with
  | PDict [(key, value)] =>
      if is_logic_key key
      then match value with
           | PList l => forallb normal l
           | _ => false
           end
      else match value with
           | PDict [(operator, _)] => negb (String.eqb operator "$eq")
           | PDict _ => false
           | _ => true
           end
  | _ => false
  end.

Definition is_dict (v : pyval) : bool :=
  match v with
  | PDict _ => true
  | _ => false
  end.

(** The items [to_item] builds: every item is checked, a logic item holds
    [$and] or [$or], a condition has no child, its field is no logic
    operator, and with the operator [$eq] its value is no dict. *)
Fixpoint canonical (item : FilterItem) : bool :=
  match item with
  | Item (Logic operator) checked children =>
      checked && is_logic_key operator && forallb canonical children
  | Item (Condition field operator value) checked children =>
      checked && is_nil children && negb (is_logic_key field)
      && (negb (String.eqb operator "$eq") || negb (is_dict value))
  end.

(** A dict in the form [to_dict] writes it is read into an item that is
    written as this dict. *)
Definition reads_back (d : pyval) : Prop :=
  normal d = true ->
  exists item,
    to_item d = Ok item /\ item_to_dict item = d /\ canonical item = true.

(** Induction on an item, with the property known of every child. *)
Fixpoint FilterItem_induction (P : FilterItem -> Prop)
  (HItem : forall data checked children,
      Forall P children -> P (Item data checked children))
  (item : FilterItem) : P item :=
  match item with
  | Item data checked children =>
      HItem data checked children
        ((fix all (l : list FilterItem) : Forall P l :=
            match l with
            | [] => Forall_nil P
            | c :: r => Forall_cons c (FilterItem_induction P HItem c) (all r)
            end) children)
  end.

End FiltersEditor.

(* ================================================================== *)
(** * cutevariant/gui/plugins/stat_analysis/dialogs.py: the tags *)
(* ================================================================== *)

Module StatAnalysis.

(** [list.sort] on a list of [str]: the order of [str] is the order of the
    codes of the characters, first difference first. *)
Fixpoint insert_sorted (x : string) (l : list string) : list string :=
  match l with
  | [] => [x]
  | y :: r => if String.leb x y then x :: l else y :: insert_sorted x r
  end.

Definition sort (l : list string) : list string := fold_right insert_sorted [] l.

(** [keep_sorted_unique_values]: [list(set(check_list))], then [sort].  The
    order in which a set gives its members does not show after the sort. *)
Definition keep_sorted_unique_values (check_list : list string) : list string :=
  sort (nodup string_dec check_list).

End StatAnalysis.

(* ================================================================== *)
(** * Vocabulary of the statements *)
(* ================================================================== *)

(** A condition node, items in the order the parser writes them.  The code
    reads a condition node by key only. *)
Definition condition (field : pyval) (operator : string) (v : pyval) : pyval :=
  PDict [("field", field); ("operator", PStr operator); ("value", v)].

(** The operator that [condition_to_sql] prints for an upper-case operator. *)
Definition sql_operator (operator : string) : string :=
  if String.eqb operator "~" then "REGEXP"
  else if String.eqb operator "HAS" then "LIKE"
  else operator.

(** The table a field resolves to, read off [fields_to_sql]: the qualifier
    the field is written with, else the table of the catalogue; the join
    alias for a function call; none for a bare column. *)
Definition field_table (field : pyval) (default_tables : list (string * string))
  : option string :=
  match field with
  | PStr name =>
      match match_table_field name with
      | Some (table, _) => Some table
      | None => lookup name default_tables
      end
  | PTuple [func_name; arg_name; _] =>
      Some (py_str func_name ++ "_" ++ py_str arg_name)
  | _ => None
  end.

(** The pieces of a query, part by part. *)
Definition opt_clause (b : bool) (c : clause) : list clause :=
  if b then [c] else [].

(** The joins added by the loop over the collected sample names. *)
Definition sample_joins (samples_ids : list (string * Z)) (samples : list pyval)
  : result (list clause) :=
  join_samples (list clause) snoc samples_ids samples [].

(** The join of one collected sample name, if it has one. *)
Definition sample_join (samples_ids : list (string * Z)) (sample_name : pyval)
  : list clause :=
  match sample_name with
  | PStr name =>
      match lookup name samples_ids with
      | Some sample_id => [JoinSample name sample_id]
      | None => []
      end
  | _ => []
  end.

Definition where_part (filters : pyval) (default_tables : list (string * string))
  : result (list clause) :=
  if truthy filters
  then
    where_clause <- filters_to_sql filters default_tables ;;
    Ok (opt_clause (nonempty where_clause && negb (String.eqb where_clause "()"))
                   (Where where_clause))
  else Ok [].

Definition order_part (order_by : pyval) (order_desc : bool)
  (default_tables : list (string * string)) : result (list clause) :=
  if truthy order_by
  then
    order_by <- fields_to_sql order_by default_tables false ;;
    Ok [OrderBy order_by (if order_desc then "DESC" else "ASC")]
  else Ok [].

(** ** Keywords in the text of a query *)

Fixpoint has_char (x : ascii) (s : string) : bool :=
  match s with
  | EmptyString => false
  | String c s' => Ascii.eqb c x || has_char x s'
  end.

(** The characters that stand between the fixed text of a piece and the
    texts it is given. *)
Definition separators : list ascii := [" "; ","; "'"; "`"; "_"]%char.

(** A keyword: a text that is not empty and holds no separator. *)
Definition is_keyword (k : string) : bool :=
  nonempty k && forallb (fun x => negb (has_char x k)) separators.

(** The fixed text of a piece, cut at the places of the texts it is given. *)
Definition fixed_text (c : clause) : list string :=
  match c with
  | Select _ => ["SELECT"]
  | From => ["FROM variants"]
  | JoinAnnotations =>
      [" LEFT JOIN annotations ON annotations.variant_id = variants.id"]
  | JoinSelection _ =>
      [" INNER JOIN selection_has_variant sv ON sv.variant_id = variants.id INNER JOIN selections s ON s.id = sv.selection_id AND s.name = "]
  | JoinSample _ _ =>
      [" INNER JOIN sample_has_variant `sample"; " ON `sample";
       ".variant_id = variants.id AND `sample"; ".sample_id ="]
  | Where _ => [" WHERE"]
  | GroupBy _ => [" GROUP BY"]
  | OrderBy _ _ => [" ORDER BY"]
  | LimitOffset _ _ => [" LIMIT"; "OFFSET"]
  end.

(** The texts a piece is given: resolved columns, names, numbers. *)
Definition supplied_texts (c : clause) : list string :=
  match c with
  | Select sql_fields => sql_fields
  | From => []
  | JoinAnnotations => []
  | JoinSelection source => [source]
  | JoinSample sample_name sample_id => [sample_name; string_of_Z sample_id]
  | Where where_clause => [where_clause]
  | GroupBy group_by => group_by
  | OrderBy order_by orientation => [order_by; orientation]
  | LimitOffset limit offset => [py_str limit; py_str offset]
  end.

(** The pieces that come after FROM: their text starts with a space. *)
Definition spaced (c : clause) : Prop :=
  exists t, clause_sql c = String " " t.

Definition is_join_sample (c : clause) : bool :=
  match c with
  | JoinSample _ _ => true
  | _ => false
  end.

(** Induction on a Python value, with the property known of the members of a
    tuple, of a list and of a dict. *)
Fixpoint pyval_induction (P : pyval -> Prop)
  (HNone : P PNone) (HBool : forall b, P (PBool b)) (HInt : forall z, P (PInt z))
  (HFloat : forall r, P (PFloat r)) (HStr : forall s, P (PStr s))
  (HTuple : forall l, Forall P l -> P (PTuple l))
  (HList : forall l, Forall P l -> P (PList l))
  (HDict : forall items, Forall (fun kv => P (snd kv)) items -> P (PDict items))
  (v : pyval) : P v :=
  let rec := pyval_induction P HNone HBool HInt HFloat HStr HTuple HList HDict in
  match v with
  | PNone => HNone
  | PBool b => HBool b
  | PInt z => HInt z
  | PFloat r => HFloat r
  | PStr s => HStr s
  | PTuple l =>
      HTuple l ((fix all (l : list pyval) : Forall P l :=
                   match l with
                   | [] => Forall_nil P
                   | x :: r => Forall_cons x (rec x) (all r)
                   end) l)
  | PList l =>
      HList l ((fix all (l : list pyval) : Forall P l :=
                  match l with
                  | [] => Forall_nil P
                  | x :: r => Forall_cons x (rec x) (all r)
                  end) l)
  | PDict items =>
      HDict items
        ((fix all (l : list (string * pyval))
            : Forall (fun kv => P (snd kv)) l :=
            match l with
            | [] => Forall_nil _
            | kv :: r =>
                Forall_cons kv
                  (match kv as kv0 return P (snd kv0) with
                   | (_, x) => rec x
                   end)
                  (all r)
            end) items)
  end.

(** The place of a piece in a query. *)
Definition rank (c : clause) : nat :=
  match c with
  | Select _ => 0
  | From => 1
  | JoinAnnotations => 2
  | JoinSelection _ => 3
  | JoinSample _ _ => 4
  | Where _ => 5
  | GroupBy _ => 6
  | OrderBy _ _ => 7
  | LimitOffset _ _ => 8
  end.

(** A text made of word characters only. *)
Fixpoint all_word (s : string) : bool :=
  match s with
  | EmptyString => true
  | String c s' => is_word c && all_word s'
  end.

(** A text that a run of word characters cannot go into: it is empty, or
    starts with an ASCII character that is no word character. *)
Definition stops_word (s : string) : bool :=
  match s with
  | EmptyString => true
  | String c _ => negb (is_word c) && (nat_of_ascii c <? 128)%nat
  end.

Definition is_text (x : scalar) : bool :=
  match x with
  | SStr _ => true
  | _ => false
  end.

(** The values of a well-formed condition that [filters_to_sql] can write
    after the operator [operator]. *)
Definition renderable_value (operator : string) (v : value) : bool :=
  let has := String.eqb (upper operator) "HAS" in
  let among := String.eqb (upper operator) "IN"
               || String.eqb (upper operator) "NOT IN" in
  match v with
  | Scalar x => is_text x || negb has
  | Sequence [] => false
  | Sequence (SStr first :: r) =>
      if String.eqb first SET_FUNC_NAME then (length r =? 1)%nat else negb has
  | Sequence (_ :: _) => negb has
  | Items l => among || (negb has && forallb is_text l)
  | NamedSet func _ => String.eqb func SET_FUNC_NAME || negb has
  end.

(** The well-formed trees that [filters_to_sql] can write. *)
Fixpoint renderable (t : FilterNode) : bool :=
  match t with
  | LogicNode _ children => forallb renderable children
  | ConditionNode _ operator v => renderable_value operator v
  end.

(** Two pieces in the order of a query: the first has its place before the
    second, or both are joins of samples. *)
Definition in_order (a b : clause) : Prop :=
  rank a < rank b \/ (is_join_sample a = true /\ is_join_sample b = true).

(** A run of pieces that are in order and have their place at [r] or
    after. *)
Definition ordered_from (r : nat) (cs : list clause) : Prop :=
  StronglySorted in_order cs /\ Forall (fun c => r <= rank c) cs.

(** A name that stays a literal when [drop_cmd] writes it between single
    quotes: it holds no single quote and no null character. *)
Definition plain (name : string) : bool :=
  negb (has_char squote name) && negb (has_char Ascii.zero name).

(** The store after the drop of [name] from the table of [feature]: that
    table without the rows of that name, every other table as it is. *)
Definition without_name (feature name : string) (db : memdb) : memdb :=
  {| fields_table := fields_table db;
     samples_table := samples_table db;
     selections_table := if String.eqb feature "selections"
                         then remove_named name (selections_table db)
                         else selections_table db;
     sets_table := if String.eqb feature "sets"
                   then remove_named name (sets_table db)
                   else sets_table db |}.

(** The names in the table of [feature]. *)
Definition names_of (feature : string) (db : memdb) : list string :=
  if String.eqb feature "selections" then selections_table db
  else sets_table db.

(** The query of the identifiers of a selection, or of all the variants. *)
Definition selection_query (source : string) : string :=
  "SELECT `variants`.`id` FROM variants"
  ++ (if String.eqb source "variants" then EmptyString
      else clause_sql (JoinSelection source)).

(* ================================================================== *)
(** * Text and the result monad *)
(* ================================================================== *)

Lemma append_nil_r (s : string) : s ++ EmptyString = s.
Proof. induction s as [|c s IH]; simpl; [reflexivity | now rewrite IH]. Qed.

Lemma append_assoc (a b c : string) : (a ++ b) ++ c = a ++ (b ++ c).
Proof. induction a as [|x a IH]; simpl; [reflexivity | now rewrite IH]. Qed.

Lemma str_map_append (f : ascii -> ascii) (a b : string) :
  str_map f (a ++ b) = str_map f a ++ str_map f b.
Proof. induction a as [|x a IH]; simpl; [reflexivity | now rewrite IH]. Qed.

Lemma str_map_length (f : ascii -> ascii) (s : string) :
  String.length (str_map f s) = String.length s.
Proof. induction s as [|c s IH]; simpl; [reflexivity | now rewrite IH]. Qed.

Lemma str_map_get (f : ascii -> ascii) (s : string) (i : nat) :
  String.get i (str_map f s) = option_map f (String.get i s).
Proof.
  revert i; induction s as [|c s IH]; intros i; simpl; [reflexivity|].
  destruct i; simpl; [reflexivity | apply IH].
Qed.

Lemma upper_char_idempotent (c : ascii) : upper_char (upper_char c) = upper_char c.
Proof.
  destruct c as [[] [] [] [] [] [] [] []]; reflexivity.
Qed.

Lemma upper_idempotent (s : string) : upper (upper s) = upper s.
Proof.
  unfold upper; induction s as [|c s IH]; simpl; [reflexivity|].
  now rewrite upper_char_idempotent, IH.
Qed.

Lemma bind_Ok {A B : Type} (c : result A) (k : A -> result B) (b : B) :
  bind c k = Ok b -> exists a, c = Ok a /\ k a = Ok b.
Proof. destruct c as [a|e]; simpl; intros H; [eauto | discriminate]. Qed.

(* ================================================================== *)
(** * [filters_to_flat] *)
(* ================================================================== *)

Lemma flat_scalars (l : list scalar) :
  flat_map recursive_generator (map scalar_to_py l) = [].
Proof.
  induction l as [|x l IH]; simpl; [reflexivity|].
  rewrite IH; destruct x; reflexivity.
Qed.

Lemma flat_field (f : field_ref) : recursive_generator (field_to_py f) = [].
Proof. destruct f; reflexivity. Qed.

Lemma flat_value (v : value) : recursive_generator (value_to_py v) = [].
Proof.
  destruct v as [x|l|l|func name]; simpl; try reflexivity.
  - destruct x; reflexivity.
  - apply flat_scalars.
Qed.

Lemma flat_children (children : list FilterNode) :
  Forall (fun t => filters_to_flat (to_dict t) = map to_dict (leaves t)) children ->
  flat_map recursive_generator (map to_dict children)
  = map to_dict (flat_map leaves children).
Proof.
  induction 1 as [|c r Hc _ IH]; simpl; [reflexivity|].
  unfold filters_to_flat in Hc. now rewrite Hc, IH, map_app.
Qed.

Lemma flatten_leaves (t : FilterNode) :
  filters_to_flat (to_dict t) = map to_dict (leaves t).
Proof.
  induction t as [operator children IH | field operator v]
    using FilterNode_induction.
  - unfold filters_to_flat; simpl.
    rewrite !app_nil_r. now apply flat_children.
  - unfold filters_to_flat.
    change (to_dict (ConditionNode field operator v))
      with (PDict [("field", field_to_py field); ("operator", PStr operator);
                   ("value", value_to_py v)]).
    cbn [recursive_generator flat_map length Nat.eqb leaves map].
    rewrite flat_field, flat_value. reflexivity.
Qed.

Lemma leaves_count (t : FilterNode) : length (leaves t) = count_conditions t.
Proof.
  induction t as [operator children IH | field operator v]
    using FilterNode_induction; [|reflexivity].
  simpl. induction IH as [|c r Hc _ IHr]; simpl; [reflexivity|].
  now rewrite length_app, Hc, IHr.
Qed.

Lemma leaves_are_conditions (t : FilterNode) :
  Forall (fun leaf => exists f o v, leaf = ConditionNode f o v) (leaves t).
Proof.
  induction t as [operator children IH | field operator v]
    using FilterNode_induction.
  - simpl. induction IH as [|c r Hc _ IHr]; simpl; [constructor|].
    apply Forall_app; split; assumption.
  - simpl. constructor; [eauto | constructor].
Qed.

(** C7. For every well-formed filter tree, [filters_to_flat] returns the leaf
    conditions of the tree in pre-order and nothing else: a tree with N leaf
    conditions gives exactly N items, whatever its depth and its mix of AND
    and OR nodes. *)
Theorem flatten_returns_the_leaf_conditions (t : FilterNode) :
  filters_to_flat (to_dict t) = map to_dict (leaves t) /\
  length (filters_to_flat (to_dict t)) = count_conditions t /\
  Forall (fun leaf => exists f o v, leaf = ConditionNode f o v) (leaves t).
Proof.
  split; [apply flatten_leaves|]. split; [|apply leaves_are_conditions].
  now rewrite flatten_leaves, length_map, leaves_count.
Qed.

(* ================================================================== *)
(** * [filters_to_sql]: condition nodes *)
(* ================================================================== *)

Lemma recursive_condition (dt : list (string * string)) (f : pyval) (o : string)
  (v : pyval) :
  filters_to_sql (condition f o v) dt
  = condition_to_sql dt [("field", f); ("operator", PStr o); ("value", v)].
Proof. reflexivity. Qed.

Lemma sql_operator_upper (o : string) :
  upper (sql_operator (upper o)) = sql_operator (upper o).
Proof.
  unfold sql_operator.
  destruct (String.eqb (upper o) "~"); [reflexivity|].
  destruct (String.eqb (upper o) "HAS"); [reflexivity|].
  apply upper_idempotent.
Qed.

(** The text of a condition is the field, the operator and the value, with
    one space between them. *)
Lemma condition_to_sql_shape (dt : list (string * string)) (f : pyval)
  (o : string) (v : pyval) (sql : string) :
  condition_to_sql dt [("field", f); ("operator", PStr o); ("value", v)] = Ok sql ->
  exists field_sql value_sql,
    fields_to_sql f dt false = Ok field_sql /\
    sql = field_sql ++ " " ++ sql_operator (upper o) ++ " " ++ value_sql.
Proof.
  unfold condition_to_sql. cbn [dict_get String.eqb Ascii.eqb Bool.eqb bind].
  intros H.
  apply bind_Ok in H as (v1 & _ & H).
  apply bind_Ok in H as ([operator v2] & Hov & H).
  apply bind_Ok in H as (field_sql & Hf & H).
  apply bind_Ok in H as (v3 & _ & H).
  cbn [fst snd] in H. injection H as <-.
  exists field_sql, (py_str v3). split; [assumption|].
  do 2 f_equal. unfold sql_operator.
  destruct (String.eqb (upper o) "~") eqn:Etilde.
  - cbn in Hov. now injection Hov as <- _.
  - destruct (String.eqb (upper o) "HAS") eqn:Ehas.
    + destruct v1; try discriminate. now injection Hov as <- _.
    + now injection Hov as <- _.
Qed.

(** C10. The text of a condition node does not depend on the letter case of
    its operator: the node with operator [o] and the node with [o] in upper
    case are rendered alike (lower-case has, in, not in go the way of HAS, IN,
    NOT IN), and the operator printed between the field and the value is in
    upper case. *)
Theorem operator_case_is_irrelevant (dt : list (string * string)) (f : pyval)
  (o : string) (v : pyval) :
  filters_to_sql (condition f o v) dt = filters_to_sql (condition f (upper o) v) dt /\
  (forall sql, filters_to_sql (condition f o v) dt = Ok sql ->
     exists field_sql value_sql,
       fields_to_sql f dt false = Ok field_sql /\
       sql = field_sql ++ " " ++ sql_operator (upper o) ++ " " ++ value_sql) /\
  upper (sql_operator (upper o)) = sql_operator (upper o).
Proof.
  split; [|split].
  - rewrite !recursive_condition. unfold condition_to_sql.
    cbn [dict_get String.eqb Ascii.eqb Bool.eqb bind].
    now rewrite upper_idempotent.
  - intros sql. rewrite recursive_condition. apply condition_to_sql_shape.
  - apply sql_operator_upper.
Qed.

Lemma operator_case_is_irrelevant_witness :
  filters_to_sql (condition (PStr "ref") "not in" (PTuple [PStr "A"; PStr "T"]))
                 [("ref", "variants")]
  = Ok "`variants`.`ref` NOT IN ('A', 'T')" /\
  exists field_sql value_sql,
    fields_to_sql (PStr "ref") [("ref", "variants")] false = Ok field_sql /\
    "`variants`.`ref` NOT IN ('A', 'T')"
    = field_sql ++ " " ++ sql_operator (upper "not in") ++ " " ++ value_sql.
Proof.
  split; [reflexivity|].
  apply (operator_case_is_irrelevant [("ref", "variants")] (PStr "ref") "not in"
           (PTuple [PStr "A"; PStr "T"])).
  reflexivity.
Defined.

Lemma translate_quote_char (c : ascii) :
  translate_char quote_table c
  = if Ascii.eqb c squote || Ascii.eqb c dquote then "%"%char else c.
Proof.
  unfold translate_char, quote_table.
  destruct (Ascii.eqb c squote); [reflexivity|].
  destruct (Ascii.eqb c dquote); reflexivity.
Qed.

(** C4. A condition whose operator is HAS and whose value is a string is
    rendered as a LIKE predicate; its value is the string with every single
    quote and every double quote replaced by a percent sign (and nothing else
    changed), between two percent signs and quoted. *)
Theorem has_becomes_like (dt : list (string * string)) (f : pyval)
  (o s field_sql : string) :
  upper o = "HAS" ->
  fields_to_sql f dt false = Ok field_sql ->
  filters_to_sql (condition f o (PStr s)) dt
  = Ok (field_sql ++ " LIKE '%" ++ translate quote_table s ++ "%'") /\
  String.length (translate quote_table s) = String.length s /\
  forall i c, String.get i s = Some c ->
    String.get i (translate quote_table s)
    = Some (if Ascii.eqb c squote || Ascii.eqb c dquote then "%"%char else c).
Proof.
  intros Ho Hf. split; [|split].
  - rewrite recursive_condition. unfold condition_to_sql.
    cbn [dict_get String.eqb Ascii.eqb Bool.eqb bind].
    rewrite Ho. cbn [String.eqb Ascii.eqb Bool.eqb bind fst snd].
    rewrite Hf. cbn [bind String.eqb Ascii.eqb Bool.eqb orb py_str].
    unfold translate. rewrite !str_map_append. cbn [str_map].
    rewrite !translate_quote_char. cbn.
    rewrite !append_assoc. reflexivity.
  - apply str_map_length.
  - intros i c Hi. unfold translate.
    now rewrite str_map_get, Hi, <- translate_quote_char.
Qed.

Lemma has_becomes_like_witness :
  let s := "test" ++ String dquote "x'y" in
  upper "HAS" = "HAS" /\
  fields_to_sql (PStr "gene") [] false = Ok "`gene`" /\
  filters_to_sql (condition (PStr "gene") "HAS" (PStr s)) []
  = Ok ("`gene`" ++ " LIKE '%" ++ "test%x%y" ++ "%'").
Proof.
  split; [reflexivity|]. split; [reflexivity|].
  apply (has_becomes_like [] (PStr "gene") "HAS"
           ("test" ++ String dquote "x'y") "`gene`"); reflexivity.
Defined.

(* ================================================================== *)
(** * [build_query]: the pieces of the query *)
(* ================================================================== *)

Lemma join_samples_from (sids : list (string * Z)) (smp : list pyval)
  (q : list clause) :
  join_samples (list clause) snoc sids smp q
  = js <- sample_joins sids smp ;; Ok (q ++ js)%list.
Proof.
  unfold sample_joins. revert q.
  induction smp as [|name r IH]; intros q; simpl.
  - now rewrite app_nil_r.
  - destruct (hashable name); [|reflexivity].
    rewrite IH. rewrite (IH (match name with PStr _ => _ | _ => _ end)).
    destruct (join_samples (list clause) snoc sids r []) as [js|e]; simpl;
      [|reflexivity].
    f_equal. destruct name; try reflexivity.
    destruct (lookup s sids); [|reflexivity].
    unfold snoc. now rewrite <- app_assoc.
Qed.

Lemma sample_joins_spec (sids : list (string * Z)) (smp : list pyval)
  (js : list clause) :
  sample_joins sids smp = Ok js -> js = flat_map (sample_join sids) smp.
Proof.
  unfold sample_joins. revert js.
  induction smp as [|name r IH]; intros js; simpl.
  - now intros [= <-].
  - destruct (hashable name); [|discriminate].
    rewrite join_samples_from. intros H.
    apply bind_Ok in H as (js' & Hjs' & [= <-]).
    rewrite (IH js' Hjs').
    destruct name; reflexivity.
Qed.

(** [build_query], piece after piece. *)
Lemma build_query_clauses_eq (fields : list pyval) (source : string)
  (filters order_by : pyval) (order_desc : bool) (limit offset : pyval)
  (group_by : list string) (dt : list (string * string))
  (sids : list (string * Z)) :
  build_query_clauses fields source filters order_by order_desc limit offset
                      group_by dt sids
  = sf <- sql_fields fields group_by dt ;;
    fif <- fields_in_filters filters dt ;;
    smp <- samples (map PStr fif ++ fields)%list ;;
    js <- sample_joins sids smp ;;
    w <- where_part filters dt ;;
    ob <- order_part order_by order_desc dt ;;
    Ok ([Select sf; From]
        ++ opt_clause (need_join_annotations (sf ++ fif)) JoinAnnotations
        ++ opt_clause (negb (String.eqb source "variants")) (JoinSelection source)
        ++ js ++ w
        ++ opt_clause (negb (is_nil group_by)) (GroupBy group_by)
        ++ ob
        ++ opt_clause (truthy limit) (LimitOffset limit offset))%list.
Proof.
  unfold build_query_clauses, build_query_on, where_part, order_part.
  fold snoc.
  destruct (sql_fields fields group_by dt) as [sf|e]; simpl; [|reflexivity].
  destruct (fields_in_filters filters dt) as [fif|e]; simpl; [|reflexivity].
  destruct (samples (map PStr fif ++ fields)) as [smp|e]; simpl; [|reflexivity].
  rewrite join_samples_from.
  destruct (sample_joins sids smp) as [js|e]; simpl; [|reflexivity].
  destruct (need_join_annotations (sf ++ fif)),
    (negb (String.eqb source "variants")), (negb (is_nil group_by)),
    (truthy limit), (truthy filters), (truthy order_by); simpl;
    try (destruct (filters_to_sql filters dt) as [w|e]; simpl;
         [destruct (nonempty w && negb (String.eqb w "()")); simpl|]);
    try (destruct (fields_to_sql order_by dt false) as [ob|e']; simpl);
    unfold snoc, opt_clause; simpl;
    rewrite <- ?app_assoc; simpl; rewrite ?app_nil_r; reflexivity.
Qed.

(** ** The text of the query is the text of its pieces *)

Lemma render_snoc (q : list clause) (c : clause) :
  render (snoc q c) = add_text (render q) c.
Proof. unfold render, snoc. now rewrite fold_left_app. Qed.

Lemma join_samples_render (sids : list (string * Z)) (smp : list pyval)
  (q : list clause) :
  join_samples string add_text sids smp (render q)
  = q' <- join_samples (list clause) snoc sids smp q ;; Ok (render q').
Proof.
  revert q. induction smp as [|name r IH]; intros q; cbn [join_samples];
    [reflexivity|].
  destruct (hashable name); [|reflexivity].
  destruct name; try apply IH.
  destruct (lookup s sids); [|apply IH].
  rewrite <- render_snoc. apply IH.
Qed.

Lemma build_query_on_render (q : list clause) (fields : list pyval)
  (source : string) (filters order_by : pyval) (order_desc : bool)
  (limit offset : pyval) (group_by : list string) (dt : list (string * string))
  (sids : list (string * Z)) :
  build_query_on string add_text (render q)
    fields source filters order_by order_desc limit offset group_by dt sids
  = cs <- build_query_on (list clause) snoc q
            fields source filters order_by order_desc limit offset group_by dt sids ;;
    Ok (render cs).
Proof.
  unfold build_query_on.
  destruct (sql_fields fields group_by dt) as [sf|e]; cbn [bind]; [|reflexivity].
  destruct (fields_in_filters filters dt) as [fif|e]; cbn [bind]; [|reflexivity].
  destruct (samples (map PStr fif ++ fields)) as [smp|e]; cbn [bind];
    [|reflexivity].
  destruct (need_join_annotations (sf ++ fif)),
    (negb (String.eqb source "variants"));
    rewrite <- !render_snoc, join_samples_render;
    (destruct (join_samples (list clause) snoc sids smp _) as [js|e]; cbn [bind];
     [|reflexivity]);
    destruct (negb (is_nil group_by)), (truthy limit), (truthy filters),
      (truthy order_by); cbn [bind];
    try (destruct (filters_to_sql filters dt) as [w|e]; cbn [bind];
         [destruct (nonempty w && negb (String.eqb w "()")); cbn [bind]|]);
    try (destruct (fields_to_sql order_by dt false) as [ob|e']; cbn [bind]);
    rewrite <- ?render_snoc; reflexivity.
Qed.

(** The query [build_query] returns is the text of the pieces, in order. *)
Lemma build_query_render (fields : list pyval) (source : string)
  (filters order_by : pyval) (order_desc : bool) (limit offset : pyval)
  (group_by : list string) (dt : list (string * string))
  (sids : list (string * Z)) :
  build_query fields source filters order_by order_desc limit offset group_by dt sids
  = cs <- build_query_clauses fields source filters order_by order_desc limit
            offset group_by dt sids ;;
    Ok (render cs).
Proof. apply (build_query_on_render []). Qed.

(** ** Which pieces a query has *)

Lemma opt_clause_In (b : bool) (c c' : clause) :
  In c (opt_clause b c') <-> b = true /\ c = c'.
Proof.
  destruct b; simpl; split.
  - intros [<-|[]]. now split.
  - intros [_ ->]. now left.
  - intros [].
  - intros [H _]. discriminate.
Qed.

Lemma sample_joins_In (sids : list (string * Z)) (smp : list pyval)
  (js : list clause) (c : clause) :
  sample_joins sids smp = Ok js -> In c js ->
  exists name sample_id,
    c = JoinSample name sample_id /\ In (PStr name) smp /\
    lookup name sids = Some sample_id.
Proof.
  intros Hjs Hc. apply sample_joins_spec in Hjs. subst js.
  apply in_flat_map in Hc as (v & Hv & Hc).
  destruct v; try contradiction. simpl in Hc.
  destruct (lookup s sids) as [sample_id|] eqn:E; [|contradiction].
  destruct Hc as [<-|[]]. eauto.
Qed.

Lemma where_part_In (filters : pyval) (dt : list (string * string))
  (w : list clause) (c : clause) :
  where_part filters dt = Ok w -> In c w ->
  exists where_clause,
    c = Where where_clause /\ truthy filters = true /\
    filters_to_sql filters dt = Ok where_clause.
Proof.
  unfold where_part. destruct (truthy filters); [|intros [= <-] []].
  destruct (filters_to_sql filters dt) as [t|e]; simpl; [|discriminate].
  intros [= <-] Hc. apply opt_clause_In in Hc as [_ ->]. eauto.
Qed.

Lemma order_part_In (order_by : pyval) (order_desc : bool)
  (dt : list (string * string)) (ob : list clause) (c : clause) :
  order_part order_by order_desc dt = Ok ob -> In c ob ->
  exists field orientation, c = OrderBy field orientation.
Proof.
  unfold order_part. destruct (truthy order_by); [|intros [= <-] []].
  destruct (fields_to_sql order_by dt false) as [t|e]; simpl; [|discriminate].
  intros [= <-] [<-|[]]. eauto.
Qed.

(** The pieces of a query that was built. *)
Lemma build_query_clauses_inv (fields : list pyval) (source : string)
  (filters order_by : pyval) (order_desc : bool) (limit offset : pyval)
  (group_by : list string) (dt : list (string * string))
  (sids : list (string * Z)) (cs : list clause) :
  build_query_clauses fields source filters order_by order_desc limit offset
                      group_by dt sids = Ok cs ->
  exists sf fif smp js w ob,
    sql_fields fields group_by dt = Ok sf /\
    fields_in_filters filters dt = Ok fif /\
    samples (map PStr fif ++ fields)%list = Ok smp /\
    sample_joins sids smp = Ok js /\
    where_part filters dt = Ok w /\
    order_part order_by order_desc dt = Ok ob /\
    cs = ([Select sf; From]
          ++ opt_clause (need_join_annotations (sf ++ fif)) JoinAnnotations
          ++ opt_clause (negb (String.eqb source "variants")) (JoinSelection source)
          ++ js ++ w
          ++ opt_clause (negb (is_nil group_by)) (GroupBy group_by)
          ++ ob
          ++ opt_clause (truthy limit) (LimitOffset limit offset))%list.
Proof.
  rewrite build_query_clauses_eq. intros H.
  apply bind_Ok in H as (sf & Hsf & H).
  apply bind_Ok in H as (fif & Hfif & H).
  apply bind_Ok in H as (smp & Hsmp & H).
  apply bind_Ok in H as (js & Hjs & H).
  apply bind_Ok in H as (w & Hw & H).
  apply bind_Ok in H as (ob & Hob & H).
  injection H as <-.
  exists sf, fif, smp, js, w, ob. repeat split; assumption.
Qed.

(** Membership in the pieces of a query, part by part. *)
Ltac in_pieces H :=
  repeat (apply in_app_or in H; destruct H as [H|H]).

(** A piece of one kind is not found in a part made of another kind. *)
Ltac not_this_piece H :=
  first
    [ apply opt_clause_In in H as [_ H]; discriminate H
    | match goal with
      | Hjs : sample_joins _ _ = Ok _ |- _ =>
          apply (sample_joins_In _ _ _ _ Hjs) in H as (? & ? & H & _);
          discriminate H
      end
    | match goal with
      | Hw : where_part _ _ = Ok _ |- _ =>
          apply (where_part_In _ _ _ _ Hw) in H as (? & H & _); discriminate H
      end
    | match goal with
      | Hob : order_part _ _ _ = Ok _ |- _ =>
          apply (order_part_In _ _ _ _ _ Hob) in H as (? & ? & H);
          discriminate H
      end
    | contradiction ].

Lemma build_query_text (fields : list pyval) (source : string)
  (filters order_by : pyval) (order_desc : bool) (limit offset : pyval)
  (group_by : list string) (dt : list (string * string))
  (sids : list (string * Z)) (cs : list clause) :
  build_query_clauses fields source filters order_by order_desc limit offset
                      group_by dt sids = Ok cs ->
  build_query fields source filters order_by order_desc limit offset group_by dt sids
  = Ok (render cs).
Proof. intros H. now rewrite build_query_render, H. Qed.

(** ** Where a keyword can occur in the text *)

Lemma prefix_sep (k a b : string) (x : ascii) :
  has_char x k = false ->
  String.prefix k (a ++ String x b) = String.prefix k a.
Proof.
  revert a. induction k as [|c k IH]; intros a Hx.
  - now destruct a.
  - cbn [has_char] in Hx. apply orb_false_iff in Hx as [Hc Hk].
    destruct a as [|y a]; cbn [append String.prefix].
    + destruct (ascii_dec c x) as [->|_]; [|reflexivity].
      now rewrite Ascii.eqb_refl in Hc.
    + destruct (ascii_dec c y); [now apply IH | reflexivity].
Qed.

(** A character that the keyword does not have cuts the text in two: the
    keyword occurs on the left of it or on the right. *)
Lemma contains_sep (k a b : string) (x : ascii) :
  has_char x k = false ->
  str_contains k (a ++ String x b) = str_contains k a || str_contains k b.
Proof.
  intros Hx. induction a as [|y a IH].
  - cbn [append str_contains].
    change (String x b) with (EmptyString ++ String x b).
    rewrite (prefix_sep k EmptyString b x Hx). now rewrite orb_false_r.
  - change (String y a ++ String x b) with (String y (a ++ String x b)).
    cbn [str_contains]. rewrite IH.
    change (String y (a ++ String x b)) with (String y a ++ String x b).
    rewrite (prefix_sep k (String y a) b x Hx). now rewrite orb_assoc.
Qed.

Lemma contains_empty (k : string) :
  nonempty k = true -> str_contains k EmptyString = false.
Proof. destruct k; [discriminate | reflexivity]. Qed.

Lemma contains_after_sep (k b : string) (x : ascii) :
  nonempty k = true -> has_char x k = false ->
  str_contains k (String x b) = str_contains k b.
Proof.
  intros Hk Hx. change (String x b) with (EmptyString ++ String x b).
  now rewrite contains_sep, contains_empty.
Qed.

Lemma is_keyword_spec (k : string) :
  is_keyword k = true ->
  nonempty k = true /\ forall x, In x separators -> has_char x k = false.
Proof.
  unfold is_keyword. intros H. apply andb_true_iff in H as [Hk Hs].
  split; [assumption|]. intros x Hx.
  rewrite forallb_forall in Hs. apply Hs in Hx. now apply negb_true_iff in Hx.
Qed.

Lemma contains_join (k : string) (l : list string) :
  is_keyword k = true ->
  str_contains k (join "," l) = existsb (str_contains k) l.
Proof.
  intros H. apply is_keyword_spec in H as [Hk Hs].
  assert (Hcomma : has_char "," k = false) by (apply Hs; unfold separators; simpl; tauto).
  induction l as [|a [|b r] IH].
  - now apply contains_empty.
  - cbn. now rewrite orb_false_r.
  - change (join "," (a :: b :: r)) with (a ++ String "," (join "," (b :: r))).
    rewrite contains_sep by assumption. now rewrite IH.
Qed.

Lemma render_from (cs : list clause) (sql_query : string) :
  fold_left add_text cs sql_query = sql_query ++ render cs.
Proof.
  unfold render. revert sql_query.
  induction cs as [|c cs IH]; intros q; cbn [fold_left].
  - now rewrite append_nil_r.
  - rewrite IH, (IH (add_text EmptyString c)). unfold add_text.
    now rewrite <- append_assoc.
Qed.

Lemma render_cons (c : clause) (cs : list clause) :
  render (c :: cs) = clause_sql c ++ render cs.
Proof. unfold render at 1. cbn [fold_left]. now rewrite render_from. Qed.

(** After FROM, the keyword occurs in the text only inside one piece. *)
Lemma contains_render_spaced (k a : string) (cs : list clause) :
  is_keyword k = true -> Forall spaced cs ->
  str_contains k (a ++ render cs)
  = str_contains k a || existsb (fun c => str_contains k (clause_sql c)) cs.
Proof.
  intros H Hcs. destruct (is_keyword_spec k H) as [Hk Hs].
  assert (Hspace : has_char " " k = false) by (apply Hs; unfold separators; simpl; tauto).
  revert a. induction Hcs as [|c cs [t Ht] _ IH]; intros a.
  - cbn. now rewrite append_nil_r, orb_false_r.
  - rewrite render_cons, Ht. cbn [existsb].
    change (a ++ String " " t ++ render cs)
      with (a ++ String " " (t ++ render cs)).
    rewrite contains_sep, IH by assumption.
    now rewrite Ht, contains_after_sep by assumption.
Qed.

Ltac split_or H :=
  match type of H with
  | (_ || _ = true) => apply orb_true_iff in H as [H|H]
  end.

(** The keyword occurs in the text of a piece only in its fixed text or in a
    text the piece is given. *)
Lemma contains_clause_sql (k : string) (c : clause) :
  is_keyword k = true ->
  str_contains k (clause_sql c) = true ->
  existsb (str_contains k) (fixed_text c) = true \/
  exists u, In u (supplied_texts c) /\ str_contains k u = true.
Proof.
  intros H. destruct (is_keyword_spec k H) as [Hk Hs].
  assert (Hspace : has_char " " k = false) by (apply Hs; unfold separators; simpl; tauto).
  assert (Hquote : has_char "'" k = false) by (apply Hs; unfold separators; simpl; tauto).
  assert (Htick : has_char "`" k = false) by (apply Hs; unfold separators; simpl; tauto).
  assert (Hline : has_char "_" k = false) by (apply Hs; unfold separators; simpl; tauto).
  destruct c as [sf| | |source|name id|w|g|f o|l o]; cbn [fixed_text supplied_texts existsb].
  - change (clause_sql (Select sf))
      with (("SELECT" ++ String " " (join "," sf)) ++ String " " EmptyString).
    rewrite !contains_sep, contains_join, contains_empty by assumption.
    rewrite !orb_false_r. intros Hin.
    apply orb_true_iff in Hin as [Hin|Hin]; [now left|right].
    apply existsb_exists in Hin. exact Hin.
  - intros Hin. left. rewrite orb_false_r. exact Hin.
  - intros Hin. left. rewrite orb_false_r. exact Hin.
  - change (clause_sql (JoinSelection source))
      with (" INNER JOIN selection_has_variant sv ON sv.variant_id = variants.id INNER JOIN selections s ON s.id = sv.selection_id AND s.name = "
            ++ String "'" (source ++ String "'" EmptyString)).
    rewrite !contains_sep, contains_empty by assumption.
    rewrite !orb_false_r. intros Hin.
    apply orb_true_iff in Hin as [Hin|Hin]; [now left|right].
    exists source. split; [now left | assumption].
  - change (clause_sql (JoinSample name id))
      with (" INNER JOIN sample_has_variant `sample"
            ++ String "_" (name ++ String "`" (" ON `sample"
            ++ String "_" (name ++ String "`" (".variant_id = variants.id AND `sample"
            ++ String "_" (name ++ String "`" (".sample_id ="
            ++ String " " (string_of_Z id)))))))).
    rewrite !contains_sep by assumption. intros Hin.
    repeat split_or Hin;
      try (left; rewrite Hin; rewrite ?orb_true_r; reflexivity);
      right; eexists; (split; [|exact Hin]); simpl; auto.
  - change (clause_sql (Where w)) with (" WHERE" ++ String " " w).
    rewrite contains_sep by assumption. intros Hin.
    apply orb_true_iff in Hin as [Hin|Hin]; [left; now rewrite Hin|right].
    exists w. split; [now left | assumption].
  - change (clause_sql (GroupBy g)) with (" GROUP BY" ++ String " " (join "," g)).
    rewrite contains_sep, contains_join by assumption. intros Hin.
    apply orb_true_iff in Hin as [Hin|Hin]; [left; now rewrite Hin|right].
    apply existsb_exists in Hin. exact Hin.
  - change (clause_sql (OrderBy f o))
      with (" ORDER BY" ++ String " " (f ++ String " " o)).
    rewrite !contains_sep by assumption. intros Hin.
    repeat split_or Hin;
      try (left; now rewrite Hin);
      right; eexists; (split; [|exact Hin]); simpl; auto.
  - change (clause_sql (LimitOffset l o))
      with (" LIMIT" ++ String " " (py_str l ++ String " " ("OFFSET"
            ++ String " " (py_str o)))).
    rewrite !contains_sep by assumption. intros Hin.
    repeat split_or Hin;
      try (left; rewrite Hin; rewrite ?orb_true_r; reflexivity);
      right; eexists; (split; [|exact Hin]); simpl; auto.
Qed.

Lemma spaced_unless_select_from (c : clause) :
  (forall sf, c <> Select sf) -> c <> From -> spaced c.
Proof.
  intros Hselect Hfrom.
  destruct c; try (eexists; reflexivity).
  - now destruct (Hselect sql_fields0).
  - now destruct Hfrom.
Qed.

(** In the text of a query that starts with SELECT and FROM, a keyword occurs
    only inside the text of one piece. *)
Lemma contains_render (k : string) (sf : list string) (rest : list clause) :
  is_keyword k = true -> Forall spaced rest ->
  str_contains k (render (Select sf :: From :: rest))
  = existsb (fun c => str_contains k (clause_sql c)) (Select sf :: From :: rest).
Proof.
  intros H Hrest. destruct (is_keyword_spec k H) as [Hk Hs].
  assert (Hspace : has_char " " k = false)
    by (apply Hs; unfold separators; simpl; tauto).
  rewrite !render_cons. cbn [existsb].
  change (clause_sql (Select sf))
    with (("SELECT" ++ String " " (join "," sf)) ++ String " " EmptyString).
  rewrite append_assoc.
  change (String " " EmptyString ++ clause_sql From ++ render rest)
    with (String " " (clause_sql From ++ render rest)).
  rewrite (contains_sep k _ (clause_sql From ++ render rest) " " Hspace).
  rewrite (contains_sep k _ EmptyString " " Hspace).
  rewrite contains_render_spaced, contains_empty by assumption.
  now rewrite orb_false_r.
Qed.

(** In the text of a query that was built, a keyword occurs only in the fixed
    text of one of its pieces or in a text that piece was given. *)
Lemma keyword_in_query (k : string) (fields : list pyval) (source : string)
  (filters order_by : pyval) (order_desc : bool) (limit offset : pyval)
  (group_by : list string) (dt : list (string * string))
  (sids : list (string * Z)) (cs : list clause) :
  is_keyword k = true ->
  build_query_clauses fields source filters order_by order_desc limit offset
                      group_by dt sids = Ok cs ->
  str_contains k (render cs) = true ->
  exists c,
    In c cs /\
    (existsb (str_contains k) (fixed_text c) = true \/
     exists u, In u (supplied_texts c) /\ str_contains k u = true).
Proof.
  intros Hk H Hin.
  apply build_query_clauses_inv in H
    as (sf & fif & smp & js & w & ob & _ & _ & _ & Hjs & Hw & Hob & ->).
  cbn [app] in Hin |- *.
  rewrite contains_render in Hin; [|assumption|].
  - apply existsb_exists in Hin as (c & Hc & Hin).
    exists c. split; [exact Hc|]. now apply contains_clause_sql.
  - apply Forall_forall. intros c Hc.
    apply spaced_unless_select_from.
    + intros sf' ->. in_pieces Hc; not_this_piece Hc.
    + intros ->. in_pieces Hc; not_this_piece Hc.
Qed.

(** C5. With the empty filter tree, the query [build_query] returns has no
    WHERE clause, whatever the fields, the source and the other arguments:
    none of its pieces is a WHERE piece, its text is the text of those pieces,
    and the word WHERE occurs in that text only inside a text the query was
    given (a resolved column, the source, a sample, a field to group or to
    order by, the limit or the offset). *)
Theorem empty_filters_give_no_where (fields : list pyval) (source : string)
  (order_by : pyval) (order_desc : bool) (limit offset : pyval)
  (group_by : list string) (dt : list (string * string))
  (sids : list (string * Z)) (cs : list clause) :
  build_query_clauses fields source (PDict []) order_by order_desc limit offset
                      group_by dt sids = Ok cs ->
  (forall where_clause, ~ In (Where where_clause) cs) /\
  build_query fields source (PDict []) order_by order_desc limit offset
              group_by dt sids = Ok (render cs) /\
  (str_contains "WHERE" (render cs) = true ->
   exists c u,
     In c cs /\ In u (supplied_texts c) /\ str_contains "WHERE" u = true).
Proof.
  intros H.
  assert (Hnone : forall where_clause, ~ In (Where where_clause) cs).
  { intros t Hin.
    apply build_query_clauses_inv in H
      as (sf & fif & smp & js & w & ob & _ & _ & _ & Hjs & Hw & Hob & ->).
    injection Hw as <-.
    simpl in Hin. destruct Hin as [Hin|[Hin|Hin]]; try discriminate.
    in_pieces Hin; not_this_piece Hin. }
  split; [exact Hnone|]. split; [now apply build_query_text|].
  intros Htext.
  destruct (keyword_in_query "WHERE" _ _ _ _ _ _ _ _ _ _ _ eq_refl H Htext)
    as (c & Hc & [Hfixed | (u & Hu & Hin)]).
  - destruct c; try discriminate. now destruct (Hnone where_clause).
  - now exists c, u.
Qed.

Lemma empty_filters_give_no_where_witness :
  let cs := [Select ["`variants`.`id`"; "`variants`.`chr`"]; From;
             OrderBy "`pos`" "ASC"; LimitOffset (PInt 50) (PInt 0)] in
  build_query_clauses [PStr "chr"; PStr "id"] "variants" (PDict []) (PStr "pos")
    false (PInt 50) (PInt 0) [] [("chr", "variants")] [] = Ok cs /\
  (forall where_clause, ~ In (Where where_clause) cs) /\
  build_query [PStr "chr"; PStr "id"] "variants" (PDict []) (PStr "pos")
    false (PInt 50) (PInt 0) [] [("chr", "variants")] []
  = Ok "SELECT `variants`.`id`,`variants`.`chr` FROM variants ORDER BY `pos` ASC LIMIT 50 OFFSET 0" /\
  (str_contains "WHERE" (render cs) = true ->
   exists c u,
     In c cs /\ In u (supplied_texts c) /\ str_contains "WHERE" u = true).
Proof.
  split; [reflexivity|].
  apply (empty_filters_give_no_where [PStr "chr"; PStr "id"] "variants"
           (PStr "pos") false (PInt 50) (PInt 0) [] [("chr", "variants")] []).
  reflexivity.
Defined.

(** A logic node without children is truthy but renders as an empty pair of
    parentheses, which the guard of [build_query] discards as well. *)
Lemma childless_logic_node_gives_no_where (operator : logic_op) :
  where_part (to_dict (LogicNode operator [])) [] = Ok [].
Proof. destruct operator; reflexivity. Qed.

(** C6. When [limit] is [None], the query has no LIMIT and no OFFSET: none of
    its pieces is the pagination piece, and the words LIMIT and OFFSET occur
    in its text only inside a text the query was given.  A query that has the
    pagination piece has it last, written from [limit] and [offset], and was
    built with a [limit] that is not [None]. *)
Theorem no_limit_gives_no_pagination (fields : list pyval) (source : string)
  (filters order_by : pyval) (order_desc : bool) (limit offset : pyval)
  (group_by : list string) (dt : list (string * string))
  (sids : list (string * Z)) (cs : list clause) :
  build_query_clauses fields source filters order_by order_desc limit offset
                      group_by dt sids = Ok cs ->
  (limit = PNone ->
   (forall l o, ~ In (LimitOffset l o) cs) /\
   forall k, k = "LIMIT" \/ k = "OFFSET" ->
     str_contains k (render cs) = true ->
     exists c u, In c cs /\ In u (supplied_texts c) /\ str_contains k u = true) /\
  (forall l o, In (LimitOffset l o) cs ->
     limit <> PNone /\
     exists cs', cs = (cs' ++ [LimitOffset limit offset])%list /\
                 forall l' o', ~ In (LimitOffset l' o') cs') /\
  build_query fields source filters order_by order_desc limit offset
              group_by dt sids = Ok (render cs).
Proof.
  intros H.
  assert (Htext := build_query_text _ _ _ _ _ _ _ _ _ _ _ H).
  assert (Hkeyword := fun k Hk => keyword_in_query k _ _ _ _ _ _ _ _ _ _ _ Hk H).
  apply build_query_clauses_inv in H
    as (sf & fif & smp & js & w & ob & _ & _ & _ & Hjs & Hw & Hob & ->).
  assert (Hbefore : forall l' o',
    ~ In (LimitOffset l' o')
         ([Select sf; From]
          ++ opt_clause (need_join_annotations (sf ++ fif)) JoinAnnotations
          ++ opt_clause (negb (String.eqb source "variants")) (JoinSelection source)
          ++ js ++ w
          ++ opt_clause (negb (is_nil group_by)) (GroupBy group_by) ++ ob)%list).
  { intros l' o' Hin.
    simpl in Hin. destruct Hin as [Hin|[Hin|Hin]]; try discriminate.
    in_pieces Hin; not_this_piece Hin. }
  assert (Hshape : forall l o,
    In (LimitOffset l o)
       ([Select sf; From]
        ++ opt_clause (need_join_annotations (sf ++ fif)) JoinAnnotations
        ++ opt_clause (negb (String.eqb source "variants")) (JoinSelection source)
        ++ js ++ w
        ++ opt_clause (negb (is_nil group_by)) (GroupBy group_by) ++ ob
        ++ opt_clause (truthy limit) (LimitOffset limit offset))%list ->
    truthy limit = true).
  { intros l o Hin.
    destruct (truthy limit) eqn:E; [reflexivity|exfalso].
    apply (Hbefore l o). simpl in Hin |- *. now rewrite !app_nil_r in Hin. }
  split; [|split].
  - intros Hlimit.
    assert (Hnone : forall l o,
      ~ In (LimitOffset l o)
           ([Select sf; From]
            ++ opt_clause (need_join_annotations (sf ++ fif)) JoinAnnotations
            ++ opt_clause (negb (String.eqb source "variants"))
                          (JoinSelection source)
            ++ js ++ w
            ++ opt_clause (negb (is_nil group_by)) (GroupBy group_by) ++ ob
            ++ opt_clause (truthy limit) (LimitOffset limit offset))%list).
    { intros l o Hin. apply Hshape in Hin. subst limit. discriminate. }
    split; [exact Hnone|].
    intros k Hk Hin.
    assert (Hok : is_keyword k = true) by (destruct Hk as [-> | ->]; reflexivity).
    destruct (Hkeyword k Hok Hin) as (c & Hc & [Hfixed | (u & Hu & Hfound)]).
    + destruct c; try (destruct Hk as [-> | ->]; discriminate).
      now destruct (Hnone limit0 offset0).
    + now exists c, u.
  - intros l o Hin. apply Hshape in Hin. split.
    + intros ->. discriminate.
    + exists ([Select sf; From]
          ++ opt_clause (need_join_annotations (sf ++ fif)) JoinAnnotations
          ++ opt_clause (negb (String.eqb source "variants")) (JoinSelection source)
          ++ js ++ w
          ++ opt_clause (negb (is_nil group_by)) (GroupBy group_by) ++ ob)%list.
      split; [|exact Hbefore].
      rewrite Hin. unfold opt_clause. simpl.
      now rewrite <- !app_assoc.
  - exact Htext.
Qed.

Lemma no_limit_gives_no_pagination_witness :
  let cs := [Select ["`variants`.`id`"]; From; JoinSelection "denovo";
             Where "`variants`.`pos` > 10"] in
  build_query_clauses [PStr "id"] "denovo"
    (to_dict (LogicNode AND [ConditionNode (Name "pos") ">" (Scalar (SInt 10))]))
    PNone true PNone (PInt 0) [] [("pos", "variants")] [] = Ok cs /\
  (PNone = PNone ->
   (forall l o, ~ In (LimitOffset l o) cs) /\
   forall k, k = "LIMIT" \/ k = "OFFSET" ->
     str_contains k (render cs) = true ->
     exists c u, In c cs /\ In u (supplied_texts c) /\ str_contains k u = true).
Proof.
  split; [reflexivity|].
  apply (no_limit_gives_no_pagination [PStr "id"] "denovo"
    (to_dict (LogicNode AND [ConditionNode (Name "pos") ">" (Scalar (SInt 10))]))
    PNone true PNone (PInt 0) [] [("pos", "variants")] []).
  reflexivity.
Defined.

(** ** The join of the annotations table *)

Lemma prefix_app_l (a b s : string) :
  String.prefix (a ++ b) s = true -> String.prefix a s = true.
Proof.
  revert s. induction a as [|x a IH]; intros s.
  - now destruct s.
  - destruct s as [|y s]; cbn [append String.prefix]; [discriminate|].
    destruct (ascii_dec x y); [apply IH | discriminate].
Qed.

Lemma str_contains_prefix (sub s : string) :
  String.prefix sub s = true -> str_contains sub s = true.
Proof. intros H. destruct s; cbn [str_contains]; now rewrite H. Qed.

Lemma str_contains_tail (sub s : string) (c : ascii) :
  str_contains sub s = true -> str_contains sub (String c s) = true.
Proof. intros H. cbn [str_contains]. rewrite H. apply orb_true_r. Qed.

(** A column written with the qualifier of the annotations table has the
    text the scan of [build_query] looks for. *)
Lemma annotations_qualifier_is_found (col : string) :
  String.prefix "`annotations`" col = true ->
  str_contains "annotations" col = true.
Proof.
  destruct col as [|c rest]; [discriminate|].
  cbn [String.prefix]. destruct (ascii_dec "`" c); [|discriminate].
  intros H. apply str_contains_tail, str_contains_prefix.
  now apply (prefix_app_l "annotations" "`").
Qed.

(** [field_table] is the qualifier [fields_to_sql] writes. *)
Lemma fields_to_sql_table (f : pyval) (dt : list (string * string))
  (use_as : bool) (table : string) :
  field_table f dt = Some table ->
  exists rest, fields_to_sql f dt use_as = Ok ("`" ++ table ++ "`" ++ rest).
Proof.
  destruct f as [| | | |name|l| |]; try discriminate; simpl.
  - destruct (match_table_field name) as [[t fld]|].
    + intros [= ->]. exists (".`" ++ fld ++ "`"). reflexivity.
    + destruct (lookup name dt) as [t|]; [|discriminate].
      intros [= ->]. exists (".`" ++ name ++ "`"). reflexivity.
  - destruct l as [|a [|b [|c [|]]]]; try discriminate.
    intros [= <-]. unfold field_function_to_sql.
    destruct (truthy c); eexists; rewrite !append_assoc; cbn [append];
      reflexivity.
Qed.

Lemma need_join_annotations_spec (cols : list string) :
  need_join_annotations cols = true <->
  exists col, In col cols /\ str_contains "annotations" col = true.
Proof. unfold need_join_annotations. apply existsb_exists. Qed.

(** What the scan of [build_query] decides the join by.  The query has the
    LEFT JOIN of the annotations table if and only if the text [annotations]
    occurs in one of the resolved columns (the selected columns and the
    fields of the filter tree); in particular whenever one of them is written
    with the qualifier of the annotations table, and never when the text
    occurs in none of them. *)
Theorem annotations_join_iff_text_found (fields : list pyval) (source : string)
  (filters order_by : pyval) (order_desc : bool) (limit offset : pyval)
  (group_by : list string) (dt : list (string * string))
  (sids : list (string * Z)) (cs : list clause) :
  build_query_clauses fields source filters order_by order_desc limit offset
                      group_by dt sids = Ok cs ->
  exists sf fif,
    sql_fields fields group_by dt = Ok sf /\
    fields_in_filters filters dt = Ok fif /\
    (In JoinAnnotations cs <->
     exists col, In col (sf ++ fif)%list /\ str_contains "annotations" col = true) /\
    (forall col, In col (sf ++ fif)%list ->
       String.prefix "`annotations`" col = true -> In JoinAnnotations cs).
Proof.
  intros H.
  apply build_query_clauses_inv in H
    as (sf & fif & smp & js & w & ob & Hsf & Hfif & _ & Hjs & Hw & Hob & ->).
  exists sf, fif. split; [assumption|]. split; [assumption|].
  assert (Hiff : In JoinAnnotations
            ([Select sf; From]
             ++ opt_clause (need_join_annotations (sf ++ fif)) JoinAnnotations
             ++ opt_clause (negb (String.eqb source "variants")) (JoinSelection source)
             ++ js ++ w
             ++ opt_clause (negb (is_nil group_by)) (GroupBy group_by) ++ ob
             ++ opt_clause (truthy limit) (LimitOffset limit offset))%list
          <-> need_join_annotations (sf ++ fif) = true).
  { split.
    - intros Hin. simpl in Hin. destruct Hin as [Hin|[Hin|Hin]]; try discriminate.
      apply in_app_or in Hin as [Hin|Hin].
      + now apply opt_clause_In in Hin as [Hin _].
      + exfalso. in_pieces Hin; not_this_piece Hin.
    - intros Hneed. rewrite Hneed. simpl. auto. }
  split.
  - rewrite Hiff. apply need_join_annotations_spec.
  - intros col Hcol Hprefix. apply Hiff, need_join_annotations_spec.
    exists col. split; [assumption|]. now apply annotations_qualifier_is_found.
Qed.

Lemma annotations_join_iff_text_found_witness :
  let cs := [Select ["`variants`.`id`"; "`variants`.`chr`"]; From; JoinAnnotations;
             Where "`annotations`.`gene` = 'BRCA1'"] in
  build_query_clauses [PStr "chr"] "variants"
    (to_dict (LogicNode AND
       [ConditionNode (Name "gene") "=" (Scalar (SStr "BRCA1"))]))
    PNone true PNone (PInt 0) []
    [("chr", "variants"); ("gene", "annotations")] [] = Ok cs /\
  exists sf fif,
    sql_fields [PStr "chr"] [] [("chr", "variants"); ("gene", "annotations")]
    = Ok sf /\
    fields_in_filters
      (to_dict (LogicNode AND
         [ConditionNode (Name "gene") "=" (Scalar (SStr "BRCA1"))]))
      [("chr", "variants"); ("gene", "annotations")] = Ok fif /\
    (In JoinAnnotations cs <->
     exists col, In col (sf ++ fif)%list /\ str_contains "annotations" col = true) /\
    (forall col, In col (sf ++ fif)%list ->
       String.prefix "`annotations`" col = true -> In JoinAnnotations cs).
Proof.
  split; [reflexivity|].
  apply (annotations_join_iff_text_found [PStr "chr"] "variants"
    (to_dict (LogicNode AND
       [ConditionNode (Name "gene") "=" (Scalar (SStr "BRCA1"))]))
    PNone true PNone (PInt 0) []
    [("chr", "variants"); ("gene", "annotations")] []).
  reflexivity.
Defined.

(** C3 at a field of the variants table whose name holds the text
    [annotations]: no resolved field is of the annotations table, so the join
    is not required, and the query has the LEFT JOIN of the annotations table
    all the same.  The scan tests whether the text occurs in the column where
    it means to test the table of the column. *)
Theorem annotations_join_without_annotations_field :
  build_query_clauses [PStr "annotations_count"] "variants" (PDict []) PNone true
    (PInt 50) (PInt 0) [] [("annotations_count", "variants")] []
  = Ok [Select ["`variants`.`id`"; "`variants`.`annotations_count`"]; From;
        JoinAnnotations; LimitOffset (PInt 50) (PInt 0)] /\
  field_table (PStr "annotations_count") [("annotations_count", "variants")]
  = Some "variants" /\
  build_query [PStr "annotations_count"] "variants" (PDict []) PNone true
    (PInt 50) (PInt 0) [] [("annotations_count", "variants")] []
  = Ok ("SELECT `variants`.`id`,`variants`.`annotations_count` FROM variants"
        ++ " LEFT JOIN annotations ON annotations.variant_id = variants.id"
        ++ " LIMIT 50 OFFSET 0").
Proof. repeat split; reflexivity. Qed.

(** ** The joins of the samples *)

(** The resolved fields of the filter tree are text, and the loop that looks
    for genotype functions only looks at tuples: it finds none of them. *)
Lemma samples_skip_text (fif : list string) (fields : list pyval) :
  samples (map PStr fif ++ fields)%list = samples fields.
Proof. induction fif as [|col r IH]; simpl; [reflexivity | exact IH]. Qed.

Lemma filter_opt_clause (f : clause -> bool) (b : bool) (c : clause) :
  f c = false -> filter f (opt_clause b c) = [].
Proof. intros H. destruct b; simpl; [now rewrite H | reflexivity]. Qed.

Lemma filter_all (f : clause -> bool) (l : list clause) :
  (forall c, In c l -> f c = true) -> filter f l = l.
Proof.
  induction l as [|c r IH]; simpl; intros H; [reflexivity|].
  rewrite (H c (or_introl eq_refl)), IH; [reflexivity|].
  intros c' Hc'. apply H. now right.
Qed.

Lemma filter_none (f : clause -> bool) (l : list clause) :
  (forall c, In c l -> f c = false) -> filter f l = [].
Proof.
  induction l as [|c r IH]; simpl; intros H; [reflexivity|].
  rewrite (H c (or_introl eq_refl)). apply IH.
  intros c' Hc'. apply H. now right.
Qed.

(** What the code does for the samples: one join for each genotype function
    among the selected fields whose sample is in [samples_ids], in the order
    of the fields, once per occurrence; the filter tree adds none. *)
Lemma sample_joins_follow_the_selected_fields (fields : list pyval)
  (source : string) (filters order_by : pyval) (order_desc : bool)
  (limit offset : pyval) (group_by : list string) (dt : list (string * string))
  (sids : list (string * Z)) (cs : list clause) :
  build_query_clauses fields source filters order_by order_desc limit offset
                      group_by dt sids = Ok cs ->
  exists smp,
    samples fields = Ok smp /\
    filter is_join_sample cs = flat_map (sample_join sids) smp.
Proof.
  intros H.
  apply build_query_clauses_inv in H
    as (sf & fif & smp & js & w & ob & _ & _ & Hsmp & Hjs & Hw & Hob & ->).
  rewrite samples_skip_text in Hsmp. exists smp. split; [assumption|].
  rewrite <- (sample_joins_spec _ _ _ Hjs).
  rewrite !filter_app, !filter_opt_clause by reflexivity.
  rewrite (filter_all _ js), (filter_none _ w), (filter_none _ ob).
  - simpl. now rewrite app_nil_r.
  - intros c Hc. now apply (order_part_In _ _ _ _ _ Hob) in Hc as (? & ? & ->).
  - intros c Hc. now apply (where_part_In _ _ _ _ Hw) in Hc as (? & -> & _).
  - intros c Hc. now apply (sample_joins_In _ _ _ _ Hjs) in Hc as (? & ? & -> & _).
Qed.

(** For fields given by name, with the empty filter tree and no ordering,
    [build_query] returns a query. *)
Lemma build_query_of_names_returns (names : list string) (source : string)
  (order_desc : bool) (limit offset : pyval) (group_by : list string)
  (dt : list (string * string)) (sids : list (string * Z)) :
  exists cs,
    build_query_clauses (map PStr names) source (PDict []) PNone order_desc
                        limit offset group_by dt sids = Ok cs.
Proof.
  rewrite build_query_clauses_eq.
  assert (Hcols : exists cols, requested_columns dt (map PStr names) = Ok cols).
  { induction names as [|name r [cols IH]]; [now exists []|].
    cbn [map requested_columns contains_id bind].
    destruct (str_contains "id" name); [now exists cols|].
    rewrite IH. unfold fields_to_sql.
    destruct (match_table_field name) as [[t f]|]; [eexists; reflexivity|].
    destruct (lookup name dt); eexists; reflexivity. }
  destruct Hcols as [cols Hcols].
  unfold sql_fields. rewrite Hcols. cbn [bind].
  assert (Hsmp : samples (map PStr names) = Ok []).
  { rewrite <- (app_nil_r (map PStr names)). apply samples_skip_text. }
  destruct (negb (is_nil group_by)); cbn [bind fields_in_filters filters_to_flat
    recursive_generator length Nat.eqb flat_map app mapM map];
    rewrite Hsmp; eexists; reflexivity.
Qed.

(** C1 at a filter that compares the genotype of sample alice, a sample of
    [samples_ids]: the query has no join for alice, although its WHERE clause
    reads the alias of that join.  The same field among the selected fields is
    joined. *)
Theorem sample_of_a_filter_is_not_joined :
  let genotype := PTuple [PStr "sample"; PStr "alice"; PStr "gt"] in
  let filters := PDict [("AND", PList [condition genotype "=" (PInt 1)])] in
  build_query [PStr "chr"] "variants" filters PNone true (PInt 50) (PInt 0)
              [] [] [("alice", 1%Z)]
  = Ok ("SELECT `variants`.`id`,`chr` FROM variants"
        ++ " WHERE `sample_alice`.`gt` = 1 LIMIT 50 OFFSET 0") /\
  build_query_clauses [PStr "chr"] "variants" filters PNone true (PInt 50) (PInt 0)
              [] [] [("alice", 1%Z)]
  = Ok [Select ["`variants`.`id`"; "`chr`"]; From;
        Where "`sample_alice`.`gt` = 1"; LimitOffset (PInt 50) (PInt 0)] /\
  build_query_clauses [PStr "chr"; genotype] "variants" (PDict []) PNone true
              (PInt 50) (PInt 0) [] [] [("alice", 1%Z)]
  = Ok [Select ["`variants`.`id`"; "`chr`";
                "`sample_alice`.`gt` AS 'sample.alice.gt'"]; From;
        JoinSample "alice" 1; LimitOffset (PInt 50) (PInt 0)].
Proof. repeat split; reflexivity. Qed.

(** A sample named by two selected fields is joined twice. *)
Lemma sample_of_two_fields_is_joined_twice :
  build_query_clauses
    [PTuple [PStr "sample"; PStr "alice"; PStr "gt"];
     PTuple [PStr "sample"; PStr "alice"; PStr "dp"]]
    "variants" (PDict []) PNone true PNone (PInt 0) [] [] [("alice", 1%Z)]
  = Ok [Select ["`variants`.`id`"; "`sample_alice`.`gt` AS 'sample.alice.gt'";
                "`sample_alice`.`dp` AS 'sample.alice.dp'"]; From;
        JoinSample "alice" 1; JoinSample "alice" 1].
Proof. reflexivity. Qed.

(** A sample that [samples_ids] does not have is skipped. *)
Lemma unknown_sample_is_skipped (name : string) (sids : list (string * Z)) :
  lookup name sids = None -> sample_join sids (PStr name) = [].
Proof. intros H. simpl. now rewrite H. Qed.

(** ** The selected columns *)

(** The selected columns start with the identifier of the variants table,
    followed by the count when the query is grouped. *)
Lemma sql_fields_head (fields : list pyval) (group_by : list string)
  (dt : list (string * string)) (sf : list string) :
  sql_fields fields group_by dt = Ok sf ->
  exists cols,
    requested_columns dt fields = Ok cols /\
    sf = ("`variants`.`id`"
          :: (if is_nil group_by then []
              else ["COUNT(`variants`.`id`) as 'count'"]) ++ cols)%list.
Proof.
  unfold sql_fields. intros H. apply bind_Ok in H as (cols & Hcols & H).
  exists cols. split; [assumption|].
  destruct (is_nil group_by); simpl in H; now injection H as <-.
Qed.

(** The requested columns, for fields given by name: the names that do not
    hold the text [id], resolved, in the order of the request. *)
Lemma requested_columns_of_names (dt : list (string * string))
  (names : list string) :
  requested_columns dt (map PStr names)
  = mapM (fun name => fields_to_sql (PStr name) dt true)
         (filter (fun name => negb (str_contains "id" name)) names).
Proof.
  induction names as [|name r IH]; [reflexivity|].
  cbn [map requested_columns contains_id bind filter].
  destruct (str_contains "id" name); cbn [negb]; [exact IH|].
  cbn [mapM]. now rewrite IH.
Qed.

(** C2 at a request for the columns chr, rsid and id: the column rsid, whose
    name is not id but holds that text, is dropped with id. *)
Theorem field_holding_id_is_dropped :
  build_query [PStr "chr"; PStr "rsid"; PStr "id"] "variants" (PDict []) PNone
              true (PInt 50) (PInt 0) [] [] []
  = Ok "SELECT `variants`.`id`,`chr` FROM variants LIMIT 50 OFFSET 0" /\
  sql_fields [PStr "chr"; PStr "rsid"; PStr "id"] [] []
  = Ok ["`variants`.`id`"; "`chr`"] /\
  fields_to_sql (PStr "rsid") [] true = Ok "`rsid`".
Proof. repeat split; reflexivity. Qed.

(* ================================================================== *)
(** * The commands *)
(* ================================================================== *)

Section CommandFacts.

Context {conn : Type} {storage : Storage conn}.

(** C8, as the code has it.  With a null target, [create_cmd] reads the two
    catalogues and returns the empty dict: it raises nothing of its own, and
    neither counts, inserts nor commits.  With a null target, first, second or
    operator, [set_cmd] returns the empty dict at once and leaves the database
    as it is. *)
Theorem null_argument_is_a_no_op (c : conn) (source : string) (filters : pyval)
  (target first second operator : option string) :
  create_cmd c None source filters
  = (_ <- get_fields c ;; _ <- get_samples c ;; Ok (c, PDict [])) /\
  (target = None \/ first = None \/ second = None \/ operator = None ->
   set_cmd c target first second operator = Ok (c, PDict [])).
Proof.
  split.
  - unfold create_cmd.
    destruct (get_fields c); simpl; [|reflexivity].
    destruct (get_samples c); reflexivity.
  - unfold set_cmd. intros H.
    destruct target, first, second, operator; try reflexivity.
    destruct H as [H|[H|[H|H]]]; discriminate.
Qed.

(** With the feature selections or sets, [drop_cmd] runs the delete by name
    on that table and commits; with any other feature it raises the error of
    an unknown feature, [VQLSyntaxError] in the code. *)
Lemma drop_cmd_runs_the_delete (c : conn) (feature name : string) :
  (feature = "selections" \/ feature = "sets" ->
   drop_cmd c feature name
   = (c1 <- execute c ("DELETE FROM " ++ feature ++ " WHERE name = '"
                         ++ name ++ "'") ;;
      c2 <- commit c1 ;;
      Ok (c2, PDict [("success", PBool true)]))) /\
  (feature <> "selections" -> feature <> "sets" ->
   drop_cmd c feature name
   = Raise (VQLSyntaxError (feature ++ " doesn't exists"))).
Proof.
  split.
  - intros [-> | ->]; reflexivity.
  - intros Hsel Hsets. unfold drop_cmd.
    apply String.eqb_neq in Hsel, Hsets.
    cbn [existsb]. now rewrite Hsel, Hsets.
Qed.

End CommandFacts.

(** ** [drop_cmd] on the store *)

(** A name that holds no single quote, written between single quotes, is read
    back as the literal of that name. *)
Lemma read_literal_plain (name : string) :
  has_char squote name = false ->
  read_literal (name ++ "'") = Some (name, EmptyString).
Proof.
  induction name as [|c name IH]; intros Hplain; [reflexivity|].
  cbn [has_char] in Hplain. apply orb_false_iff in Hplain as [Hc Hname].
  cbn [append read_literal]. rewrite Hc, (IH Hname). reflexivity.
Qed.

Lemma plain_spec (name : string) :
  plain name = true ->
  has_char squote name = false /\ has_nul name = false.
Proof.
  unfold plain. intros H. apply andb_prop in H as [Hquote Hnul].
  apply negb_true_iff in Hquote, Hnul. split; [exact Hquote|]. clear Hquote.
  induction name as [|c name IH]; [reflexivity|].
  cbn [has_char] in Hnul. apply orb_false_iff in Hnul as [Hc Hname].
  cbn [has_nul]. now rewrite Hc, (IH Hname).
Qed.

Lemma has_nul_app (a b : string) : has_nul (a ++ b) = has_nul a || has_nul b.
Proof.
  induction a as [|c a IH]; [reflexivity|].
  cbn [append has_nul]. now rewrite IH, orb_assoc.
Qed.

Lemma strip_prefix_app (p s : string) : strip_prefix p (p ++ s) = Some s.
Proof.
  induction p as [|c p IH]; cbn [append strip_prefix]; [now destruct s|].
  now rewrite Ascii.eqb_refl.
Qed.

(** The text [drop_cmd] writes for such a name is the delete by that name. *)
Lemma read_statement_of_drop (feature name : string) :
  feature = "selections" \/ feature = "sets" ->
  has_char squote name = false ->
  read_statement ("DELETE FROM " ++ feature ++ " WHERE name = '" ++ name ++ "'")
  = DeleteByName feature name.
Proof.
  intros Hfeature Hplain. unfold read_statement.
  rewrite strip_prefix_app.
  assert (Htable : span_word (feature ++ " WHERE name = '" ++ name ++ "'")
                   = (feature, " WHERE name = '" ++ name ++ "'"))
    by (destruct Hfeature as [-> | ->]; reflexivity).
  rewrite Htable, strip_prefix_app, (read_literal_plain _ Hplain).
  reflexivity.
Qed.

Lemma remove_named_In (name row : string) (rows : list string) :
  In row (remove_named name rows) <-> In row rows /\ row <> name.
Proof.
  unfold remove_named. rewrite filter_In, negb_true_iff.
  now rewrite String.eqb_neq.
Qed.

Lemma remove_named_absent (name : string) (rows : list string) :
  ~ In name rows -> remove_named name rows = rows.
Proof.
  induction rows as [|row r IH]; intros Habsent; [reflexivity|].
  cbn [remove_named filter].
  destruct (String.eqb_spec row name) as [-> | Hne].
  - exfalso. apply Habsent. now left.
  - cbn [negb]. f_equal. apply IH. intros Hin. apply Habsent. now right.
Qed.

Lemma remove_named_twice (name : string) (rows : list string) :
  remove_named name (remove_named name rows) = remove_named name rows.
Proof.
  apply remove_named_absent. rewrite remove_named_In. now intros [_ Hne].
Qed.

Lemma drop_of_a_plain_name (db : memdb) (feature name : string) :
  feature = "selections" \/ feature = "sets" ->
  plain name = true ->
  drop_cmd db feature name
  = Ok (without_name feature name db, PDict [("success", PBool true)]).
Proof.
  intros Hfeature Hplain. apply plain_spec in Hplain as [Hquote Hnul].
  rewrite (proj1 (drop_cmd_runs_the_delete db feature name) Hfeature).
  cbn [execute memdb_storage].
  assert (Htext : has_nul ("DELETE FROM " ++ feature ++ " WHERE name = '"
                           ++ name ++ "'") = false).
  { rewrite !has_nul_app, Hnul. now destruct Hfeature as [-> | ->]. }
  rewrite Htext, (read_statement_of_drop _ _ Hfeature Hquote).
  destruct Hfeature as [-> | ->]; reflexivity.
Qed.




Lemma null_argument_is_a_no_op_witness :
  (@None string = None \/ Some "A" = None \/ Some "B" = None \/ Some "+" = None) /\
  set_cmd example_db None (Some "A") (Some "B") (Some "+")
  = Ok (example_db, PDict []).
Proof.
  split; [left; reflexivity|].
  apply (null_argument_is_a_no_op example_db "variants" (PDict [])
           None (Some "A") (Some "B") (Some "+")).
  left; reflexivity.
Defined.

(** C8, as stated, fails: with a null target, and with a null operand, the
    commands return the empty dict and raise nothing. *)
Lemma null_argument_raises_nothing :
  create_cmd example_db None "variants" (PDict []) = Ok (example_db, PDict []) /\
  set_cmd example_db (Some "denovo") None (Some "B") (Some "+")
  = Ok (example_db, PDict []).
Proof. split; reflexivity. Qed.

(* ================================================================== *)
(** * More of [querybuilder.py] *)
(* ================================================================== *)

(** ** What [filters_to_flat] yields *)

Lemma Forall_flat_map_items (P : pyval -> Prop) (items : list (string * pyval)) :
  Forall (fun kv => Forall P (recursive_generator (snd kv))) items ->
  Forall P (flat_map (fun kv => match kv with
                                | (_, x) => recursive_generator x
                                end) items).
Proof.
  induction 1 as [|[k x] r Hx _ IH]; simpl; [constructor|].
  apply Forall_app. split; assumption.
Qed.

Lemma Forall_flat_map_list (P : pyval -> Prop) (l : list pyval) :
  Forall (fun x => Forall P (recursive_generator x)) l ->
  Forall P (flat_map recursive_generator l).
Proof.
  induction 1 as [|x r Hx _ IH]; simpl; [constructor|].
  apply Forall_app. split; assumption.
Qed.

(** X1. Whatever object it is given, [filters_to_flat] yields only dicts of
    exactly three items: the objects [build_query] goes on to read the field
    of. *)
Theorem flatten_yields_dicts_of_three_items (filters : pyval) :
  Forall (fun node => exists items, node = PDict items /\ length items = 3)
         (filters_to_flat filters).
Proof.
  unfold filters_to_flat.
  induction filters as [| | | | |l IH|l IH|items IH] using pyval_induction;
    try constructor.
  - cbn [recursive_generator]. now apply Forall_flat_map_list.
  - cbn [recursive_generator]. apply Forall_app. split.
    + destruct (length items =? 3)%nat eqn:E; [|constructor].
      constructor; [|constructor]. exists items. split; [reflexivity|].
      now apply Nat.eqb_eq.
    + now apply Forall_flat_map_items.
Qed.

(** ** Qualified fields *)

Lemma span_word_app (w rest : string) :
  all_word w = true -> stops_word rest = true ->
  span_word (w ++ rest) = (w, rest).
Proof.
  intros Hw Hrest. induction w as [|c w IH]; cbn [append].
  - destruct rest as [|x rest]; [reflexivity|].
    cbn [stops_word] in Hrest. apply andb_prop in Hrest as [Hrest _].
    cbn [span_word]. now rewrite (proj1 (negb_true_iff _) Hrest).
  - cbn [all_word] in Hw. apply andb_true_iff in Hw as [Hc Hw].
    cbn [span_word]. now rewrite Hc, (IH Hw).
Qed.

(** X2. A field written [table.field] resolves to that table and that field,
    whatever the catalogue says of the field; the pattern is not anchored at
    the end, so what follows the second word is dropped without a word. *)
Theorem qualified_field_keeps_its_table (table field rest : string)
  (dt : list (string * string)) (use_as : bool) :
  nonempty table = true -> all_word table = true ->
  nonempty field = true -> all_word field = true ->
  stops_word rest = true ->
  fields_to_sql (PStr (table ++ "." ++ field ++ rest)) dt use_as
  = Ok ("`" ++ table ++ "`.`" ++ field ++ "`").
Proof.
  intros Ht Hwt Hf Hwf Hrest.
  cbn [fields_to_sql]. unfold match_table_field.
  change (table ++ "." ++ field ++ rest)
    with (table ++ String "." (field ++ rest)).
  rewrite (span_word_app table (String "." (field ++ rest)) Hwt eq_refl).
  destruct table as [|c table]; [discriminate|].
  rewrite (span_word_app field rest Hwf Hrest), Hf. reflexivity.
Qed.

Lemma qualified_field_keeps_its_table_witness :
  nonempty "annotations" = true /\ all_word "annotations" = true /\
  nonempty "gene" = true /\ all_word "gene" = true /\
  stops_word ".name" = true /\
  fields_to_sql (PStr ("annotations" ++ "." ++ "gene" ++ ".name"))
                [("gene", "variants")] true
  = Ok ("`" ++ "annotations" ++ "`.`" ++ "gene" ++ "`").
Proof.
  repeat (split; [reflexivity|]).
  apply (qualified_field_keeps_its_table "annotations" "gene" ".name"
           [("gene", "variants")] true); reflexivity.
Defined.

(** ** Logic nodes and values in [filters_to_sql] *)

Lemma span_word_all (name : string) :
  all_word name = true -> span_word name = (name, EmptyString).
Proof.
  intros Hname. rewrite <- (append_nil_r name) at 1.
  now apply span_word_app.
Qed.

(** X21. A field written as one word takes the table the catalogue gives it,
    and is written bare when the catalogue does not know it; no alias is
    written for it, asked for or not. *)
Theorem bare_field_takes_the_table_of_the_catalogue (name : string)
  (dt : list (string * string)) (use_as : bool) :
  all_word name = true ->
  fields_to_sql (PStr name) dt use_as
  = Ok match lookup name dt with
       | Some table => "`" ++ table ++ "`.`" ++ name ++ "`"
       | None => "`" ++ name ++ "`"
       end.
Proof.
  intros Hname. cbn [fields_to_sql]. unfold match_table_field.
  rewrite (span_word_all _ Hname).
  destruct name; destruct (lookup _ dt); reflexivity.
Qed.

Lemma bare_field_takes_the_table_of_the_catalogue_witness :
  fields_to_sql (PStr "gene") [("gene", "annotations")] true
  = Ok "`annotations`.`gene`" /\
  fields_to_sql (PStr "gene") [] true = Ok "`gene`".
Proof.
  split.
  - apply (bare_field_takes_the_table_of_the_catalogue "gene"
             [("gene", "annotations")] true). reflexivity.
  - apply (bare_field_takes_the_table_of_the_catalogue "gene" [] true).
    reflexivity.
Defined.

(** X3. A logic node with a single child is written as the child alone: the
    operator and the parentheses are dropped, and what the child raises is
    raised. *)
Theorem single_child_is_written_alone (dt : list (string * string))
  (logic_op : string) (child : pyval) :
  filters_to_sql (PDict [(logic_op, PList [child])]) dt = filters_to_sql child dt.
Proof.
  unfold filters_to_sql.
  change (recursive dt (PDict [(logic_op, PList [child])]))
    with (out <- (y <- recursive dt child ;; ys <- Ok [] ;; Ok (y :: ys)) ;;
          if (length out =? 1)%nat
          then Ok (join (" " ++ logic_op ++ " ") out)
          else Ok ("(" ++ join (" " ++ logic_op ++ " ") out ++ ")")).
  destruct (recursive dt child) as [text|e]; reflexivity.
Qed.

Lemma operator_is_has (o : string) :
  String.eqb (if String.eqb (upper o) "~" then "REGEXP" else upper o) "HAS"
  = String.eqb (upper o) "HAS".
Proof. destruct (String.eqb_spec (upper o) "~") as [->|_]; reflexivity. Qed.

(** X4. A text value is written between single quotes, as it is, after every
    operator but HAS: after IN and NOT IN as well. *)
Theorem text_value_is_quoted (dt : list (string * string)) (f : pyval)
  (o s field_sql : string) :
  upper o <> "HAS" ->
  fields_to_sql f dt false = Ok field_sql ->
  filters_to_sql (condition f o (PStr s)) dt
  = Ok (field_sql ++ " " ++ sql_operator (upper o) ++ " '" ++ s ++ "'").
Proof.
  intros Ho Hf. apply String.eqb_neq in Ho.
  rewrite recursive_condition. unfold condition_to_sql.
  cbn [dict_get String.eqb Ascii.eqb Bool.eqb bind].
  rewrite operator_is_has, Ho. cbn [bind fst snd]. rewrite Hf. cbn [bind].
  unfold sql_operator. rewrite Ho.
  destruct (String.eqb (upper o) "~") eqn:Etilde.
  - cbn. rewrite ?append_assoc. reflexivity.
  - destruct (String.eqb (upper o) "IN" || String.eqb (upper o) "NOT IN");
      cbn; rewrite ?append_assoc; reflexivity.
Qed.

Lemma text_value_is_quoted_witness :
  upper "in" <> "HAS" /\
  fields_to_sql (PStr "ref") [] false = Ok "`ref`" /\
  filters_to_sql (condition (PStr "ref") "in" (PStr "('A', 'T')")) []
  = Ok ("`ref`" ++ " " ++ sql_operator (upper "in") ++ " '" ++ "('A', 'T')" ++ "'").
Proof.
  split; [discriminate|]. split; [reflexivity|].
  apply (text_value_is_quoted [] (PStr "ref") "in" "('A', 'T')" "`ref`");
    [discriminate | reflexivity].
Defined.

(** X5. A tuple value whose first member is the text [set] and that has two
    members is written as the sub-select of the set named by the second, for
    every operator but HAS: a reference to a set, and a list of two values of
    which the first is that text, are written alike. *)
Theorem set_reference_is_a_subselect (dt : list (string * string)) (f name : pyval)
  (o field_sql : string) :
  upper o <> "HAS" ->
  fields_to_sql f dt false = Ok field_sql ->
  filters_to_sql (condition f o (PTuple [PStr "set"; name])) dt
  = Ok (field_sql ++ " " ++ sql_operator (upper o)
        ++ " (SELECT value FROM sets WHERE name = '" ++ py_str name ++ "')").
Proof.
  intros Ho Hf. apply String.eqb_neq in Ho.
  rewrite recursive_condition. unfold condition_to_sql.
  cbn [dict_get String.eqb Ascii.eqb Bool.eqb bind eq_str SET_FUNC_NAME
       set_function_to_sql].
  rewrite operator_is_has, Ho. cbn [bind fst snd]. rewrite Hf. cbn [bind].
  unfold sql_operator. rewrite Ho.
  destruct (String.eqb (upper o) "~") eqn:Etilde.
  - cbn. rewrite ?append_assoc. reflexivity.
  - destruct (String.eqb (upper o) "IN" || String.eqb (upper o) "NOT IN");
      cbn; rewrite ?append_assoc; reflexivity.
Qed.

Lemma set_reference_is_a_subselect_witness :
  upper "in" <> "HAS" /\
  fields_to_sql (PStr "gene") [] false = Ok "`gene`" /\
  filters_to_sql (condition (PStr "gene") "in" (PTuple [PStr "set"; PStr "panel"])) []
  = Ok ("`gene`" ++ " " ++ sql_operator (upper "in")
        ++ " (SELECT value FROM sets WHERE name = '" ++ py_str (PStr "panel") ++ "')").
Proof.
  split; [discriminate|]. split; [reflexivity|].
  apply (set_reference_is_a_subselect [] (PStr "gene") (PStr "panel") "in" "`gene`");
    [discriminate | reflexivity].
Defined.

Lemma dict_get_raises (key : string) (items : list (string * pyval)) (e : exn) :
  dict_get key items = Raise e -> e = KeyError.
Proof.
  induction items as [|[k v] r IH]; cbn [dict_get].
  - now intros [= <-].
  - destruct (String.eqb k key); [discriminate | exact IH].
Qed.

(** X6. A dict of three items is read as a condition: when one of the keys
    field, value and operator is missing, [filters_to_sql] raises
    [KeyError]. *)
Theorem missing_key_raises_KeyError (dt : list (string * string))
  (items : list (string * pyval)) :
  length items = 3 ->
  dict_get "field" items = Raise KeyError \/
  dict_get "value" items = Raise KeyError \/
  dict_get "operator" items = Raise KeyError ->
  filters_to_sql (PDict items) dt = Raise KeyError.
Proof.
  intros Hlen Hmissing. unfold filters_to_sql.
  destruct items as [|i1 [|i2 [|i3 [|i4 r]]]]; try discriminate.
  cbn [recursive truthy length Nat.eqb negb]. unfold condition_to_sql.
  destruct (dict_get "field" _) as [field|e] eqn:Efield; cbn [bind];
    [|now rewrite (dict_get_raises _ _ _ Efield)].
  destruct (dict_get "value" _) as [value|e] eqn:Evalue; cbn [bind];
    [|now rewrite (dict_get_raises _ _ _ Evalue)].
  destruct (dict_get "operator" _) as [operator|e] eqn:Eoperator; cbn [bind];
    [|now rewrite (dict_get_raises _ _ _ Eoperator)].
  destruct Hmissing as [H|[H|H]]; discriminate.
Qed.

Lemma missing_key_raises_KeyError_witness :
  length [("field", PStr "ref"); ("op", PStr "="); ("value", PStr "A")] = 3 /\
  filters_to_sql (PDict [("field", PStr "ref"); ("op", PStr "=");
                         ("value", PStr "A")]) [] = Raise KeyError.
Proof.
  split; [reflexivity|].
  apply (missing_key_raises_KeyError []
           [("field", PStr "ref"); ("op", PStr "="); ("value", PStr "A")]);
    [reflexivity | right; right; reflexivity].
Defined.

(** ** The well-formed trees that can be written *)

Lemma mapM_cons {A B : Type} (f : A -> result B) (x : A) (r : list A) :
  mapM f (x :: r) = y <- f x ;; ys <- mapM f r ;; Ok (y :: ys).
Proof. reflexivity. Qed.

Lemma mapM_returns_iff {A B : Type} (f : A -> result B) (l : list A) :
  (exists out, mapM f l = Ok out) <-> Forall (fun x => exists y, f x = Ok y) l.
Proof.
  induction l as [|x r IH].
  - split; [constructor | now exists []].
  - rewrite mapM_cons. split.
    + intros [out H]. apply bind_Ok in H as (y & Hy & H).
      apply bind_Ok in H as (ys & Hys & _).
      constructor; [now exists y | apply IH; now exists ys].
    + intros H. inversion H as [|? ? [y Hy] Hr]; subst.
      apply IH in Hr as [ys Hys]. exists (y :: ys).
      now rewrite Hy, Hys.
Qed.

Lemma field_ref_resolves (f : field_ref) (dt : list (string * string))
  (use_as : bool) :
  exists col, fields_to_sql (field_to_py f) dt use_as = Ok col.
Proof.
  destruct f as [name|func arg field]; cbn [field_to_py fields_to_sql].
  - destruct (match_table_field name) as [[t x]|]; [eexists; reflexivity|].
    destruct (lookup name dt); eexists; reflexivity.
  - unfold field_function_to_sql.
    destruct (truthy (PStr field)); eexists; reflexivity.
Qed.

Lemma operator_is_among (o : string) :
  String.eqb (if String.eqb (upper o) "~" then "REGEXP" else upper o) "IN"
  || String.eqb (if String.eqb (upper o) "~" then "REGEXP" else upper o) "NOT IN"
  = String.eqb (upper o) "IN" || String.eqb (upper o) "NOT IN".
Proof. destruct (String.eqb_spec (upper o) "~") as [->|_]; reflexivity. Qed.

Lemma has_is_not_among (o : string) :
  String.eqb (upper o) "HAS" = true ->
  String.eqb (upper o) "IN" || String.eqb (upper o) "NOT IN" = false.
Proof. intros H. apply String.eqb_eq in H. now rewrite H. Qed.

Lemma texts_return_iff (l : list scalar) :
  (exists items,
     mapM (fun x => match x with
                    | PStr s => Ok s
                    | _ => Raise TypeError
                    end) (map scalar_to_py l) = Ok items)
  <-> forallb is_text l = true.
Proof.
  rewrite mapM_returns_iff, forallb_forall, Forall_forall. split.
  - intros H x Hx. destruct (H (scalar_to_py x) (in_map _ _ _ Hx)) as [y Hy].
    destruct x; try discriminate. reflexivity.
  - intros H v Hv. apply in_map_iff in Hv as (x & <- & Hx).
    specialize (H x Hx). destruct x; try discriminate. eexists; reflexivity.
Qed.

(** What is left of [condition_to_sql] once the operator and the value are
    known and the operator is not HAS. *)
Lemma condition_without_has (dt : list (string * string)) (f : field_ref)
  (o : string) (v : pyval) :
  String.eqb (upper o) "HAS" = false ->
  (exists text,
     (ov <- Ok (if String.eqb (upper o) "~" then "REGEXP" else upper o, v) ;;
      field <- fields_to_sql (field_to_py f) dt false ;;
      value <- (if String.eqb (fst ov) "IN" || String.eqb (fst ov) "NOT IN"
                then Ok (snd ov)
                else match snd ov with
                     | PList l =>
                         items <- mapM (fun x => match x with
                                                 | PStr s => Ok s
                                                 | _ => Raise TypeError
                                                 end) l ;;
                         Ok (PStr ("(" ++ join "," items ++ ")"))
                     | _ => Ok (PStr (py_str (snd ov)))
                     end) ;;
      Ok (field ++ " " ++ fst ov ++ " " ++ py_str value)) = Ok text)
  <-> (String.eqb (upper o) "IN" || String.eqb (upper o) "NOT IN" = true
       \/ match v with
          | PList l => exists items,
              mapM (fun x => match x with
                             | PStr s => Ok s
                             | _ => Raise TypeError
                             end) l = Ok items
          | _ => True
          end).
Proof.
  intros Hhas. cbn [bind fst snd].
  destruct (field_ref_resolves f dt false) as [col ->]. cbn [bind].
  rewrite operator_is_among.
  destruct (String.eqb (upper o) "IN" || String.eqb (upper o) "NOT IN").
  - split; [now left | intros _; eexists; reflexivity].
  - split.
    + intros [text H]. right. destruct v; try exact I.
      apply bind_Ok in H as (value & H & _).
      apply bind_Ok in H as (items & H & _). now exists items.
    + intros [H|H]; [discriminate|].
      destruct v; try (eexists; reflexivity).
      destruct H as [items ->]. eexists; reflexivity.
Qed.

Lemma condition_renders_iff (dt : list (string * string)) (f : field_ref)
  (o : string) (v : value) :
  (exists text,
     filters_to_sql (to_dict (ConditionNode f o v)) dt = Ok text)
  <-> renderable_value o v = true.
Proof.
  change (to_dict (ConditionNode f o v))
    with (condition (field_to_py f) o (value_to_py v)).
  rewrite recursive_condition. unfold condition_to_sql.
  cbn [dict_get String.eqb Ascii.eqb Bool.eqb bind].
  rewrite operator_is_has. unfold renderable_value.
  destruct (String.eqb (upper o) "HAS") eqn:Ehas.
  - (* HAS: the value must be a text after the first steps *)
    rewrite (has_is_not_among o Ehas).
    destruct (field_ref_resolves f dt false) as [col Hcol].
    destruct v as [[z|r|s|b]|[|[z|r|s|b] l]|l|func name];
      cbn [value_to_py scalar_to_py map bind eq_str is_text orb negb andb fst snd];
      try (split; [intros [text H]; discriminate | discriminate]);
      try (rewrite Hcol; split; [reflexivity | intros _; eexists; reflexivity]).
    + (* a sequence that starts with a text *)
      destruct (String.eqb s SET_FUNC_NAME) eqn:Eset.
      * destruct l as [|x [|y l]]; cbn [map set_function_to_sql bind length Nat.eqb];
          try (split; [intros [text H]; discriminate | discriminate]).
        cbn [fst snd]. rewrite Hcol.
        split; [reflexivity | intros _; eexists; reflexivity].
      * cbn [bind]. split; [intros [text H]; discriminate | discriminate].
    + (* a named set *)
      destruct (String.eqb func SET_FUNC_NAME) eqn:Eset.
      * cbn [set_function_to_sql bind fst snd]. rewrite Hcol.
        split; [reflexivity | intros _; eexists; reflexivity].
      * cbn [bind]. split; [intros [text H]; discriminate | discriminate].
  - (* any other operator *)
    destruct v as [[z|r|s|b]|[|[z|r|s|b] l]|l|func name];
      cbn [value_to_py scalar_to_py map eq_str is_text orb negb andb].
    + refine (iff_trans (condition_without_has dt f o (PInt z) Ehas) _).
      split; [reflexivity | intros _; right; exact I].
    + refine (iff_trans (condition_without_has dt f o (PFloat r) Ehas) _).
      split; [reflexivity | intros _; right; exact I].
    + refine (iff_trans
                (condition_without_has dt f o (PStr ("'" ++ s ++ "'")) Ehas) _).
      split; [reflexivity | intros _; right; exact I].
    + refine (iff_trans (condition_without_has dt f o (PBool b) Ehas) _).
      split; [reflexivity | intros _; right; exact I].
    + cbn [bind]. split; [intros [text H]; discriminate | discriminate].
    + refine (iff_trans
                (condition_without_has dt f o
                   (PTuple (PInt z :: map scalar_to_py l)) Ehas) _).
      split; [reflexivity | intros _; right; exact I].
    + refine (iff_trans
                (condition_without_has dt f o
                   (PTuple (PFloat r :: map scalar_to_py l)) Ehas) _).
      split; [reflexivity | intros _; right; exact I].
    + destruct (String.eqb s SET_FUNC_NAME) eqn:Eset.
      * destruct l as [|x [|y l]]; cbn [map set_function_to_sql bind length Nat.eqb];
          try (split; [intros [text H]; discriminate | discriminate]).
        refine (iff_trans (condition_without_has dt f o (PStr _) Ehas) _).
        split; [reflexivity | intros _; right; exact I].
      * refine (iff_trans
                  (condition_without_has dt f o
                     (PTuple (PStr s :: map scalar_to_py l)) Ehas) _).
        split; [reflexivity | intros _; right; exact I].
    + refine (iff_trans
                (condition_without_has dt f o
                   (PTuple (PBool b :: map scalar_to_py l)) Ehas) _).
      split; [reflexivity | intros _; right; exact I].
    + refine (iff_trans
                (condition_without_has dt f o (PList (map scalar_to_py l)) Ehas) _).
      rewrite texts_return_iff.
      destruct (String.eqb (upper o) "IN" || String.eqb (upper o) "NOT IN");
        cbn [orb]; [split; [reflexivity | now left]|].
      split; [intros [H|H]; [discriminate | exact H] | now right].
    + destruct (String.eqb func SET_FUNC_NAME) eqn:Eset.
      * refine (iff_trans (condition_without_has dt f o (PStr _) Ehas) _).
        split; [reflexivity | intros _; right; exact I].
      * refine (iff_trans
                  (condition_without_has dt f o (PTuple [PStr func; PStr name])
                     Ehas) _).
        split; [reflexivity | intros _; right; exact I].
Qed.

Lemma logic_node_renders_iff (dt : list (string * string)) (operator : logic_op)
  (children : list FilterNode) :
  (exists text, filters_to_sql (to_dict (LogicNode operator children)) dt = Ok text)
  <-> Forall (fun t => exists text, filters_to_sql (to_dict t) dt = Ok text)
             children.
Proof.
  unfold filters_to_sql.
  change (recursive dt (to_dict (LogicNode operator children)))
    with (out <- mapM (recursive dt) (map to_dict children) ;;
          if (length out =? 1)%nat
          then Ok (join (" " ++ logic_name operator ++ " ") out)
          else Ok ("(" ++ join (" " ++ logic_name operator ++ " ") out ++ ")")).
  rewrite <- (Forall_map to_dict (fun v => exists text, recursive dt v = Ok text)).
  rewrite <- mapM_returns_iff. split.
  - intros [text H]. apply bind_Ok in H as (out & H & _). now exists out.
  - intros [out ->]. cbn [bind].
    destruct (length out =? 1)%nat; eexists; reflexivity.
Qed.

(** X7. On a well-formed tree, [filters_to_sql] returns a text exactly when
    every condition of the tree can be written: HAS needs a text or a
    reference to a set; a list of values needs IN or NOT IN unless all its
    members are texts; a sequence is not empty, and one that starts with the
    text [set] has two members.  On every other well-formed tree it
    raises. *)
Theorem well_formed_tree_is_written_iff (dt : list (string * string))
  (t : FilterNode) :
  (exists text, filters_to_sql (to_dict t) dt = Ok text) <-> renderable t = true.
Proof.
  induction t as [operator children IH | field operator v]
    using FilterNode_induction.
  - rewrite logic_node_renders_iff. cbn [renderable].
    rewrite forallb_forall, Forall_forall. rewrite Forall_forall in IH.
    split; intros H t Ht; apply (IH t Ht), H, Ht.
  - apply condition_renders_iff.
Qed.

Lemma well_formed_tree_is_written_iff_witness :
  let t := LogicNode AND [ConditionNode (Name "gene") "has" (Scalar (SStr "CFTR"));
                          ConditionNode (Name "pos") ">" (Scalar (SInt 10))] in
  renderable t = true /\
  ((exists text, filters_to_sql (to_dict t) [] = Ok text) <-> renderable t = true).
Proof.
  split; [reflexivity|].
  apply (well_formed_tree_is_written_iff []
           (LogicNode AND
              [ConditionNode (Name "gene") "has" (Scalar (SStr "CFTR"));
               ConditionNode (Name "pos") ">" (Scalar (SInt 10))])).
Defined.

(** ** [filters_to_vql] *)

(** X8. On every well-formed tree [filters_to_vql] returns a text; the text
    of a logic node is always between parentheses, with one child as
    well. *)
Theorem well_formed_tree_has_a_vql_text (t : FilterNode) :
  exists text,
    filters_to_vql (to_dict t) = Ok text /\
    match t with
    | LogicNode _ _ => exists inner, text = "(" ++ inner ++ ")"
    | ConditionNode _ _ _ => True
    end.
Proof.
  induction t as [operator children IH | field operator v]
    using FilterNode_induction.
  - unfold filters_to_vql.
    change (recursive_vql (to_dict (LogicNode operator children)))
      with (out <- mapM recursive_vql (map to_dict children) ;;
            Ok ("(" ++ join (" " ++ logic_name operator ++ " ") out ++ ")")).
    assert (Hout : exists out, mapM recursive_vql (map to_dict children) = Ok out).
    { apply mapM_returns_iff, Forall_map.
      eapply Forall_impl; [|exact IH].
      intros t (text & Ht & _). now exists text. }
    destruct Hout as [out ->]. cbn [bind]. eexists. split; [reflexivity|].
    now exists (join (" " ++ logic_name operator ++ " ") out).
  - eexists. split; [reflexivity | exact I].
Qed.

(* ================================================================== *)
(** * More of [build_query] *)
(* ================================================================== *)

Lemma ordered_from_nil (r : nat) : ordered_from r [].
Proof. split; constructor. Qed.

Lemma ordered_from_earlier (r r' : nat) (cs : list clause) :
  r <= r' -> ordered_from r' cs -> ordered_from r cs.
Proof.
  intros Hr [Hsorted Hfrom]. split; [assumption|].
  eapply Forall_impl; [|exact Hfrom]. intros c Hc. simpl in Hc. lia.
Qed.

Lemma ordered_from_cons (r : nat) (c : clause) (cs : list clause) :
  rank c = r -> ordered_from (S r) cs -> ordered_from r (c :: cs).
Proof.
  intros Hc [Hsorted Hfrom]. split.
  - constructor; [assumption|].
    eapply Forall_impl; [|exact Hfrom]. intros c' Hc'. left. simpl in Hc'. lia.
  - constructor; [lia|].
    eapply Forall_impl; [|exact Hfrom]. intros c' Hc'. simpl in Hc'. lia.
Qed.

Lemma ordered_from_opt (r : nat) (b : bool) (c : clause) (cs : list clause) :
  rank c = r -> ordered_from (S r) cs -> ordered_from r (opt_clause b c ++ cs).
Proof.
  intros Hc Hcs. destruct b; cbn [opt_clause app].
  - now apply ordered_from_cons.
  - apply (ordered_from_earlier r (S r)); [lia | assumption].
Qed.

Lemma ordered_from_joins (js cs : list clause) :
  (forall c, In c js -> is_join_sample c = true) ->
  ordered_from 5 cs -> ordered_from 4 (js ++ cs).
Proof.
  intros Hjs Hcs. induction js as [|j js IH]; cbn [app].
  - apply (ordered_from_earlier 4 5); [lia | assumption].
  - assert (Hj : is_join_sample j = true) by (apply Hjs; now left).
    destruct IH as [Hsorted Hfrom]; [intros c Hc; apply Hjs; now right|].
    destruct Hcs as [_ Hafter].
    split.
    + constructor; [assumption|]. apply Forall_app. split.
      * apply Forall_forall. intros c Hc. right. split; [assumption|].
        apply Hjs. now right.
      * eapply Forall_impl; [|exact Hafter]. intros c Hc. left.
        destruct j; try discriminate. simpl in *. lia.
    + constructor; [destruct j; try discriminate; simpl; lia | assumption].
Qed.

Lemma where_part_shape (filters : pyval) (dt : list (string * string))
  (w : list clause) :
  where_part filters dt = Ok w -> w = [] \/ exists text, w = [Where text].
Proof.
  unfold where_part. destruct (truthy filters); [|intros [= <-]; now left].
  destruct (filters_to_sql filters dt) as [text|e]; cbn [bind]; [|discriminate].
  intros [= <-]. destruct (_ && _); cbn [opt_clause]; [right; eauto | now left].
Qed.

Lemma order_part_shape (order_by : pyval) (order_desc : bool)
  (dt : list (string * string)) (ob : list clause) :
  order_part order_by order_desc dt = Ok ob ->
  ob = [] \/
  exists field,
    fields_to_sql order_by dt false = Ok field /\ truthy order_by = true /\
    ob = [OrderBy field (if order_desc then "DESC" else "ASC")].
Proof.
  unfold order_part. destruct (truthy order_by); [|intros [= <-]; now left].
  destruct (fields_to_sql order_by dt false) as [field|e]; cbn [bind];
    [|discriminate].
  intros [= <-]. right. now exists field.
Qed.

(** X9. The pieces of a query come in the order of SQL: SELECT and FROM
    first, then the join of the annotations, the join of the selection, the
    joins of the samples, WHERE, GROUP BY, ORDER BY, LIMIT; and but for the
    joins of the samples no piece comes twice. *)
Theorem pieces_come_in_the_order_of_sql (fields : list pyval) (source : string)
  (filters order_by : pyval) (order_desc : bool) (limit offset : pyval)
  (group_by : list string) (dt : list (string * string))
  (sids : list (string * Z)) (cs : list clause) :
  build_query_clauses fields source filters order_by order_desc limit offset
                      group_by dt sids = Ok cs ->
  (exists sf rest, cs = Select sf :: From :: rest) /\
  StronglySorted in_order cs.
Proof.
  intros H.
  apply build_query_clauses_inv in H
    as (sf & fif & smp & js & w & ob & _ & _ & _ & Hjs & Hw & Hob & ->).
  split; [eexists; eexists; reflexivity|].
  cbn [app].
  apply (ordered_from_cons 0); [reflexivity|].
  apply (ordered_from_cons 1); [reflexivity|].
  apply (ordered_from_opt 2); [reflexivity|].
  apply (ordered_from_opt 3); [reflexivity|].
  apply ordered_from_joins.
  { intros c Hc. now apply (sample_joins_In _ _ _ _ Hjs) in Hc as (? & ? & -> & _). }
  assert (Htail : ordered_from 6
            (opt_clause (negb (is_nil group_by)) (GroupBy group_by) ++ ob
             ++ opt_clause (truthy limit) (LimitOffset limit offset))).
  { apply (ordered_from_opt 6); [reflexivity|].
    assert (Hlimit : ordered_from 8
              (opt_clause (truthy limit) (LimitOffset limit offset))).
    { rewrite <- (app_nil_r (opt_clause _ _)).
      apply (ordered_from_opt 8); [reflexivity | apply ordered_from_nil]. }
    destruct (order_part_shape _ _ _ _ Hob) as [-> | (field & _ & _ & ->)];
      cbn [app].
    - apply (ordered_from_earlier 7 8); [lia | assumption].
    - now apply (ordered_from_cons 7). }
  destruct (where_part_shape _ _ _ Hw) as [-> | [text ->]]; cbn [app].
  - apply (ordered_from_earlier 5 6); [lia | assumption].
  - now apply (ordered_from_cons 5).
Qed.

Lemma pieces_come_in_the_order_of_sql_witness :
  let cs := [Select ["`variants`.`id`"; "COUNT(`variants`.`id`) as 'count'";
                     "`sample_alice`.`gt` AS 'sample.alice.gt'"];
             From; JoinSelection "denovo"; JoinSample "alice" 1;
             GroupBy ["chr"]; OrderBy "`pos`" "DESC";
             LimitOffset (PInt 10) (PInt 20)] in
  build_query_clauses [PTuple [PStr "sample"; PStr "alice"; PStr "gt"]] "denovo"
    (PDict []) (PStr "pos") true (PInt 10) (PInt 20) ["chr"] [] [("alice", 1%Z)]
  = Ok cs /\
  (exists sf rest, cs = Select sf :: From :: rest) /\
  StronglySorted in_order cs.
Proof.
  split; [reflexivity|].
  apply (pieces_come_in_the_order_of_sql
           [PTuple [PStr "sample"; PStr "alice"; PStr "gt"]] "denovo"
           (PDict []) (PStr "pos") true (PInt 10) (PInt 20) ["chr"] []
           [("alice", 1%Z)]).
  reflexivity.
Defined.

(** X10. Grouping changes two things in a query, and both follow [group_by]:
    the count of the identifiers is the second column exactly when [group_by]
    is not empty, after the identifier and before the requested columns; and
    the query has a GROUP BY piece exactly when [group_by] is not empty, which
    is then written from [group_by]. *)
Theorem grouping_adds_the_count_and_the_clause (fields : list pyval)
  (source : string) (filters order_by : pyval) (order_desc : bool)
  (limit offset : pyval) (group_by : list string) (dt : list (string * string))
  (sids : list (string * Z)) (cs : list clause) :
  build_query_clauses fields source filters order_by order_desc limit offset
                      group_by dt sids = Ok cs ->
  (exists cols rest,
     requested_columns dt fields = Ok cols /\
     cs = (Select ("`variants`.`id`"
                   :: match group_by with
                      | [] => cols
                      | _ :: _ => "COUNT(`variants`.`id`) as 'count'" :: cols
                      end) :: From :: rest)%list) /\
  (forall g, In (GroupBy g) cs <-> g = group_by /\ group_by <> []).
Proof.
  intros H.
  apply build_query_clauses_inv in H
    as (sf & fif & smp & js & w & ob & Hsf & _ & _ & Hjs & Hw & Hob & ->).
  split.
  - apply sql_fields_head in Hsf as (cols & Hcols & ->).
    exists cols. eexists. split; [assumption|].
    destruct group_by; reflexivity.
  - intros g. split.
    + intros Hin. simpl in Hin. destruct Hin as [Hin|[Hin|Hin]]; try discriminate.
      apply in_app_or in Hin. destruct Hin as [Hin|Hin]; [not_this_piece Hin|].
      apply in_app_or in Hin. destruct Hin as [Hin|Hin]; [not_this_piece Hin|].
      apply in_app_or in Hin. destruct Hin as [Hin|Hin]; [not_this_piece Hin|].
      apply in_app_or in Hin. destruct Hin as [Hin|Hin]; [not_this_piece Hin|].
      apply in_app_or in Hin. destruct Hin as [Hin|Hin].
      * apply opt_clause_In in Hin as [Hg [= ->]]. split; [reflexivity|].
        intros ->. discriminate.
      * apply in_app_or in Hin. destruct Hin as [Hin|Hin]; not_this_piece Hin.
    + intros [-> Hg]. cbn [app]. apply in_cons, in_cons.
      rewrite !in_app_iff. do 4 right. left.
      apply opt_clause_In. split; [|reflexivity].
      destruct group_by; [contradiction | reflexivity].
Qed.

Lemma grouping_adds_the_count_and_the_clause_witness :
  let cs := [Select ["`variants`.`id`"; "COUNT(`variants`.`id`) as 'count'";
                     "`variants`.`chr`"];
             From; GroupBy ["chr"]] in
  build_query_clauses [PStr "chr"] "variants" (PDict []) PNone true PNone
    (PInt 0) ["chr"] [("chr", "variants")] [] = Ok cs /\
  (exists cols rest,
     requested_columns [("chr", "variants")] [PStr "chr"] = Ok cols /\
     cs = (Select ("`variants`.`id`" :: "COUNT(`variants`.`id`) as 'count'"
                   :: cols) :: From :: rest)%list) /\
  (forall g, In (GroupBy g) cs <-> g = ["chr"] /\ ["chr"] <> []).
Proof.
  split; [reflexivity|].
  apply (grouping_adds_the_count_and_the_clause [PStr "chr"] "variants"
           (PDict []) PNone true PNone (PInt 0) ["chr"] [("chr", "variants")] []).
  reflexivity.
Defined.

(** X11. The query joins the selection tables exactly when its source is not
    the table of all the variants, and the join then names the source. *)
Theorem selection_is_joined_iff_source_is_not_variants (fields : list pyval)
  (source : string) (filters order_by : pyval) (order_desc : bool)
  (limit offset : pyval) (group_by : list string) (dt : list (string * string))
  (sids : list (string * Z)) (cs : list clause) :
  build_query_clauses fields source filters order_by order_desc limit offset
                      group_by dt sids = Ok cs ->
  forall s, In (JoinSelection s) cs <-> s = source /\ source <> "variants".
Proof.
  intros H s.
  apply build_query_clauses_inv in H
    as (sf & fif & smp & js & w & ob & _ & _ & _ & Hjs & Hw & Hob & ->).
  split.
  - intros Hin. simpl in Hin. destruct Hin as [Hin|[Hin|Hin]]; try discriminate.
    rewrite !in_app_iff in Hin.
    destruct Hin as [Hin|[Hin|[Hin|[Hin|[Hin|[Hin|Hin]]]]]];
      try (not_this_piece Hin; fail).
    apply opt_clause_In in Hin as [Hsource [= ->]]. split; [reflexivity|].
    intros ->. discriminate.
  - intros [-> Hsource]. cbn [app]. apply in_cons, in_cons.
    rewrite !in_app_iff. right. left.
    apply opt_clause_In. split; [|reflexivity].
    destruct (String.eqb_spec source "variants"); [contradiction | reflexivity].
Qed.

Lemma selection_is_joined_iff_source_is_not_variants_witness :
  build_query_clauses [PStr "chr"] "denovo" (PDict []) PNone true PNone (PInt 0)
    [] [] [] = Ok [Select ["`variants`.`id`"; "`chr`"]; From; JoinSelection "denovo"]
  /\
  forall s,
    In (JoinSelection s) [Select ["`variants`.`id`"; "`chr`"]; From;
                          JoinSelection "denovo"]
    <-> s = "denovo" /\ "denovo" <> "variants".
Proof.
  split; [reflexivity|].
  apply (selection_is_joined_iff_source_is_not_variants [PStr "chr"] "denovo"
           (PDict []) PNone true PNone (PInt 0) [] [] []).
  reflexivity.
Defined.

(** X12. A limit that is false for Python (zero, an empty text, [None]) is no
    limit: the query is the one built without a limit, whatever the offset. *)
Theorem false_limit_is_no_limit (fields : list pyval) (source : string)
  (filters order_by : pyval) (order_desc : bool) (limit offset offset' : pyval)
  (group_by : list string) (dt : list (string * string))
  (sids : list (string * Z)) :
  truthy limit = false ->
  build_query fields source filters order_by order_desc limit offset
              group_by dt sids
  = build_query fields source filters order_by order_desc PNone offset'
                group_by dt sids.
Proof.
  intros Hlimit.
  rewrite !build_query_render, !build_query_clauses_eq, Hlimit. reflexivity.
Qed.

Lemma false_limit_is_no_limit_witness :
  build_query [PStr "chr"] "variants" (PDict []) PNone true (PInt 0) (PInt 40)
              [] [] []
  = build_query [PStr "chr"] "variants" (PDict []) PNone true PNone (PInt 0)
                [] [] []
  /\ build_query [PStr "chr"] "variants" (PDict []) PNone true (PInt 0) (PInt 40)
                 [] [] []
     = Ok "SELECT `variants`.`id`,`chr` FROM variants".
Proof.
  split; [|reflexivity].
  apply (false_limit_is_no_limit [PStr "chr"] "variants" (PDict []) PNone true
           (PInt 0) (PInt 40) (PInt 0) [] [] []).
  reflexivity.
Defined.

Lemma identifier_query_text (source : string) :
  build_query [PStr "id"] source (PDict []) PNone true PNone (PInt 0) [] [] []
  = Ok (selection_query source).
Proof.
  rewrite build_query_render, build_query_clauses_eq.
  unfold selection_query.
  destruct (String.eqb source "variants"); reflexivity.
Qed.

(** X13. The query that [create_cmd] builds for the identifiers selects the
    identifier alone and has, after FROM, at most the join of the annotations,
    the join of the selection and the WHERE piece: it joins no sample, whatever
    the filters name, and it has no grouping, no order and no limit. *)
Theorem identifier_query_joins_no_sample (source : string) (filters : pyval)
  (dt : list (string * string)) (sids : list (string * Z)) (cs : list clause) :
  build_query_clauses [PStr "id"] source filters PNone true PNone (PInt 0) []
                      dt sids = Ok cs ->
  exists rest,
    cs = Select ["`variants`.`id`"] :: From :: rest /\
    Forall (fun c => c = JoinAnnotations \/ c = JoinSelection source \/
                     exists text, c = Where text /\
                                  filters_to_sql filters dt = Ok text) rest.
Proof.
  intros H.
  apply build_query_clauses_inv in H
    as (sf & fif & smp & js & w & ob & Hsf & _ & Hsmp & Hjs & Hw & Hob & ->).
  injection Hsf as <-. injection Hob as <-.
  rewrite samples_skip_text in Hsmp. injection Hsmp as <-.
  injection Hjs as <-.
  eexists. split; [reflexivity|].
  cbn [app opt_clause truthy is_nil negb]. rewrite app_nil_r.
  apply Forall_app. split; [|apply Forall_app; split].
  - apply Forall_forall. intros c Hc.
    apply opt_clause_In in Hc as [_ ->]. now left.
  - apply Forall_forall. intros c Hc.
    apply opt_clause_In in Hc as [_ ->]. right. now left.
  - apply Forall_forall. intros c Hc.
    apply (where_part_In _ _ _ _ Hw) in Hc as (text & -> & _ & Htext).
    right. right. now exists text.
Qed.

Lemma identifier_query_joins_no_sample_witness :
  let filters :=
    PDict [("AND", PList [PDict [("field", PTuple [PStr "sample"; PStr "alice";
                                                   PStr "gt"]);
                                 ("operator", PStr "=");
                                 ("value", PInt 1)]])] in
  let cs := [Select ["`variants`.`id`"]; From;
             Where "`sample_alice`.`gt` = 1"] in
  build_query_clauses [PStr "id"] "variants" filters PNone true PNone (PInt 0) []
                      [] [("alice", 1%Z)] = Ok cs /\
  exists rest,
    cs = Select ["`variants`.`id`"] :: From :: rest /\
    Forall (fun c => c = JoinAnnotations \/ c = JoinSelection "variants" \/
                     exists text, c = Where text /\
                                  filters_to_sql filters [] = Ok text) rest.
Proof.
  split; [reflexivity|].
  apply (identifier_query_joins_no_sample "variants"
           (PDict [("AND", PList [PDict [("field", PTuple [PStr "sample";
                                                           PStr "alice";
                                                           PStr "gt"]);
                                         ("operator", PStr "=");
                                         ("value", PInt 1)]])])
           [] [("alice", 1%Z)]).
  reflexivity.
Defined.

(* ================================================================== *)
(** * More of [command.py] *)
(* ================================================================== *)

Section MoreCommandFacts.

Context {conn : Type} {storage : Storage conn} {reader : Reader conn}.

(** X14. [set_cmd] makes the selection of a set operation on two queries of
    identifiers: the union for [+], the difference for [-], the intersection
    for [&], each of the query of the first selection and the query of the
    second, in that order; a query of identifiers joins the selection tables
    unless its source is the table of all the variants.  The catalogues of the
    database are not read. *)
Theorem set_cmd_combines_the_two_selections (c : conn)
  (target first second : string) :
  set_cmd c (Some target) (Some first) (Some second) (Some "+")
  = materialize c target
      (union_variants (selection_query first) (selection_query second)) /\
  set_cmd c (Some target) (Some first) (Some second) (Some "-")
  = materialize c target
      (subtract_variants (selection_query first) (selection_query second)) /\
  set_cmd c (Some target) (Some first) (Some second) (Some "&")
  = materialize c target
      (intersect_variants (selection_query first) (selection_query second)).
Proof.
  unfold set_cmd. rewrite !identifier_query_text. cbn [bind].
  repeat split; reflexivity.
Qed.

(** X15. With an operator other than [+], [-] and [&], [set_cmd] raises
    [UnboundLocalError], the name [sql_query] having no value: nothing is
    counted, inserted or committed. *)
Theorem unknown_set_operator_raises (c : conn)
  (target first second operator : string) :
  operator <> "+" -> operator <> "-" -> operator <> "&" ->
  set_cmd c (Some target) (Some first) (Some second) (Some operator)
  = Raise UnboundLocalError.
Proof.
  intros Hunion Hdiff Hinter.
  apply String.eqb_neq in Hunion, Hdiff, Hinter.
  unfold set_cmd. rewrite !identifier_query_text. cbn [bind].
  now rewrite Hunion, Hdiff, Hinter.
Qed.

(** X16. [select_cmd] and [count_cmd] never return: they call [build_query]
    with the keyword [having], which is none of its parameters, so once the
    two catalogues are read the call raises [TypeError], whatever the
    arguments; no query is run. *)
Theorem select_and_count_raise_TypeError (c : conn) (fields : list pyval)
  (source : string) (filters order_by : pyval) (order_desc : bool)
  (group_by : list string) (having limit offset : pyval) :
  (forall rows,
     select_cmd c fields source filters order_by order_desc group_by having
                limit offset <> Ok rows) /\
  (forall count, count_cmd c fields source filters group_by having <> Ok count) /\
  (forall fields_rows samples_rows,
     get_fields c = Ok fields_rows -> get_samples c = Ok samples_rows ->
     select_cmd c fields source filters order_by order_desc group_by having
                limit offset = Raise TypeError /\
     count_cmd c fields source filters group_by having = Raise TypeError).
Proof.
  unfold select_cmd, count_cmd.
  destruct (get_fields c) as [fields_rows|e]; cbn [bind];
    [|repeat split; discriminate].
  destruct (get_samples c) as [samples_rows|e]; cbn [bind];
    [|repeat split; discriminate].
  repeat split; try discriminate; reflexivity.
Qed.

End MoreCommandFacts.

Lemma unknown_set_operator_raises_witness :
  set_cmd example_db (Some "C") (Some "A") (Some "B") (Some "|")
  = Raise UnboundLocalError.
Proof.
  apply (unknown_set_operator_raises example_db "C" "A" "B" "|");
    discriminate.
Defined.

Lemma select_and_count_raise_TypeError_witness :
  select_cmd example_db [PStr "chr"] "variants" (PDict []) PNone true []
             (PDict []) (PInt 50) (PInt 0) = Raise TypeError /\
  count_cmd example_db [PStr "chr"] "variants" (PDict []) [] (PDict [])
  = Raise TypeError.
Proof.
  apply (proj2 (proj2 (select_and_count_raise_TypeError example_db [PStr "chr"]
                         "variants" (PDict []) PNone true [] (PDict [])
                         (PInt 50) (PInt 0)))
           (fields_table example_db) (samples_table example_db));
    reflexivity.
Defined.

(* ================================================================== *)
(** * The filter editor: dicts and items *)
(* ================================================================== *)

Section FiltersEditorFacts.

Import FiltersEditor.

Lemma canonical_is_checked (item : FilterItem) :
  canonical item = true -> is_checked item = true.
Proof.
  destruct item as [[operator|field operator value] checked children];
    simpl; intros H; repeat (apply andb_prop in H as [H _]); exact H.
Qed.

(** The children written by [to_dict] when none is unchecked. *)
Lemma checked_children_are_written (children : list FilterItem) :
  forallb canonical children = true ->
  (fix each (l : list FilterItem) : list pyval :=
     match l with
     | [] => []
     | child :: r =>
         if is_checked child then item_to_dict child :: each r else each r
     end) children
  = map item_to_dict children.
Proof.
  induction children as [|child r IH]; intros H; [reflexivity|].
  cbn [forallb] in H. apply andb_prop in H as [Hchild Hr].
  cbn [map]. rewrite (canonical_is_checked _ Hchild), (IH Hr). reflexivity.
Qed.

Lemma logic_item_to_dict (operator : string) (children : list FilterItem) :
  forallb canonical children = true ->
  item_to_dict (Item (Logic operator) true children)
  = PDict [(operator, PList (map item_to_dict children))].
Proof.
  intros H. cbn [item_to_dict].
  now rewrite (checked_children_are_written _ H).
Qed.

Lemma children_read_back (l : list pyval) :
  Forall reads_back l -> forallb normal l = true ->
  exists items,
    mapM to_item l = Ok items /\ map item_to_dict items = l /\
    forallb canonical items = true.
Proof.
  induction 1 as [|d r Hd _ IH]; intros Hnormal.
  - now exists [].
  - cbn [forallb] in Hnormal. apply andb_prop in Hnormal as [Hnd Hnr].
    destruct (Hd Hnd) as (item & Hitem & Hback & Hcanonical).
    destruct (IH Hnr) as (items & Hitems & Hbacks & Hcanonicals).
    exists (item :: items). rewrite mapM_cons, Hitem. cbn [bind].
    rewrite Hitems. cbn [bind map forallb].
    now rewrite Hback, Hbacks, Hcanonical, Hcanonicals.
Qed.

Lemma normal_dict_reads_back (d : pyval) : reads_back d.
Proof.
  enough (H : reads_back d /\ forall l, d = PList l -> Forall reads_back l)
    by apply H.
  induction d as [| | | | |l IH|l IH|items IH] using pyval_induction;
    try (split; [intros H; discriminate H | intros l' H; discriminate H]).
  - split; [intros H; discriminate H|].
    intros l' [= <-]. eapply Forall_impl; [|exact IH]. now intros d [Hd _].
  - split; [|intros l' H; discriminate H].
    intros Hnormal.
    destruct items as [|[key value] [|second more]]; try discriminate Hnormal.
    apply Forall_inv in IH. cbn [snd] in IH. destruct IH as [_ IH].
    cbn [normal] in Hnormal. cbn [to_item].
    destruct (is_logic_key key) eqn:Hkey.
    + destruct value as [| | | | | |l|]; try discriminate Hnormal.
      destruct (children_read_back l (IH l eq_refl) Hnormal)
        as (items & Hitems & Hbacks & Hcanonicals).
      exists (Item (Logic key) true items).
      rewrite Hitems. cbn [bind]. split; [reflexivity|]. split.
      * now rewrite (logic_item_to_dict _ _ Hcanonicals), Hbacks.
      * cbn [canonical andb]. now rewrite Hkey, Hcanonicals.
    + destruct value as [| | | | | | |[|[operator v] [|second more]]];
        try discriminate Hnormal;
        try (eexists; split; [reflexivity|]; split;
             [reflexivity | cbn; now rewrite Hkey]).
      exists (new_item (Condition key operator v)).
      split; [reflexivity|].
      apply negb_true_iff in Hnormal. cbn. now rewrite Hnormal, Hkey.
Qed.

Lemma canonical_item_is_read_back (item : FilterItem) :
  canonical item = true -> to_item (item_to_dict item) = Ok item.
Proof.
  induction item as [data checked children IH] using FilterItem_induction.
  destruct data as [operator|field operator value]; cbn [canonical]; intros H.
  - apply andb_prop in H as [H Hchildren]. apply andb_prop in H as [-> Hkey].
    rewrite (logic_item_to_dict _ _ Hchildren). cbn [to_item]. rewrite Hkey.
    assert (Hread : mapM to_item (map item_to_dict children) = Ok children).
    { clear Hkey. induction IH as [|child r Hchild _ IHr]; [reflexivity|].
      cbn [forallb] in Hchildren. apply andb_prop in Hchildren as [Hc Hr].
      cbn [map]. rewrite mapM_cons, (Hchild Hc). cbn [bind].
      now rewrite (IHr Hr). }
    now rewrite Hread.
  - apply andb_prop in H as [H Hvalue]. apply andb_prop in H as [H Hfield].
    apply andb_prop in H as [-> Hchildren].
    destruct children; [|discriminate Hchildren].
    apply negb_true_iff in Hfield.
    cbn [item_to_dict]. destruct (String.eqb_spec operator "$eq") as [-> | Hop].
    + cbn [to_item]. rewrite Hfield.
      destruct value as [| | | | | | |items]; try reflexivity.
      discriminate Hvalue.
    + cbn [to_item]. now rewrite Hfield.
Qed.

Lemma canonical_item_is_a_dict (item : FilterItem) :
  canonical item = true -> truthy (item_to_dict item) = true.
Proof.
  destruct item as [[operator|field operator value] checked children];
    cbn [canonical item_to_dict]; intros H.
  - apply andb_prop in H as [H _]. apply andb_prop in H as [-> _]. reflexivity.
  - now destruct (String.eqb operator "$eq").
Qed.

(** X17. A dict of filters in the form the editor writes (one key a node; a
    logic node a list of such dicts; no [$eq] operator spelled out, no empty
    or many-keyed operator dict) is kept by the editor: loading it replaces
    the model by one item, and reading the filters of the model gives the
    dict back. *)
Theorem loaded_filters_are_read_back (root_children : list FilterItem)
  (d : pyval) :
  normal d = true ->
  exists item,
    load root_children d = Ok [item] /\ filters [item] = d /\
    canonical item = true.
Proof.
  intros Hnormal.
  destruct (normal_dict_reads_back d Hnormal) as (item & Hitem & Hback & Hc).
  exists item. unfold load, filters, to_dict. rewrite Hitem.
  destruct d as [| | | | | | |[|first more]]; try discriminate Hnormal.
  now cbn.
Qed.

(** X18. The other way round: a model of one item in which every item is
    checked, every logic item holds [$and] or [$or], and every condition has
    a field that is no logic operator and, with the operator [$eq], a value
    that is no dict, is rebuilt from its own filters. *)
Theorem written_filters_are_loaded_back (root_children : list FilterItem)
  (item : FilterItem) :
  canonical item = true ->
  load root_children (filters [item]) = Ok [item].
Proof.
  intros Hcanonical. unfold load, filters, to_dict.
  rewrite (canonical_item_is_a_dict _ Hcanonical).
  now rewrite (canonical_item_is_read_back _ Hcanonical).
Qed.

Lemma loaded_filters_are_read_back_witness :
  let d := PDict [("$and", PList [PDict [("ref", PStr "A")];
                                  PDict [("pos", PDict [("$gt", PInt 10)])]])] in
  normal d = true /\
  exists item,
    load [] d = Ok [item] /\ filters [item] = d /\ canonical item = true.
Proof.
  split; [reflexivity|].
  apply (loaded_filters_are_read_back []
           (PDict [("$and", PList [PDict [("ref", PStr "A")];
                                   PDict [("pos", PDict [("$gt", PInt 10)])]])])).
  reflexivity.
Defined.

Lemma written_filters_are_loaded_back_witness :
  let item := Item (Logic "$or") true
                [Item (Condition "chr" "$eq" (PStr "chr5")) true [];
                 Item (Condition "pos" "$lt" (PInt 100)) true []] in
  canonical item = true /\ load [] (filters [item]) = Ok [item].
Proof.
  split; [reflexivity|].
  apply (written_filters_are_loaded_back []
           (Item (Logic "$or") true
              [Item (Condition "chr" "$eq" (PStr "chr5")) true [];
               Item (Condition "pos" "$lt" (PInt 100)) true []])).
  reflexivity.
Defined.

End FiltersEditorFacts.

(* ================================================================== *)
(** * The tags of the statistics dialogs *)
(* ================================================================== *)

Section StatAnalysisFacts.

Import StatAnalysis.

Lemma insert_sorted_In (x y : string) (l : list string) :
  In y (insert_sorted x l) <-> y = x \/ In y l.
Proof.
  induction l as [|z r IH]; cbn [insert_sorted].
  - simpl. intuition congruence.
  - destruct (String.leb x z); simpl in *; intuition congruence.
Qed.

Lemma insert_sorted_Sorted (x : string) (l : list string) :
  Sorted (fun a b => String.leb a b = true) l ->
  Sorted (fun a b => String.leb a b = true) (insert_sorted x l).
Proof.
  induction 1 as [|z r Hr IH Hhead]; cbn [insert_sorted].
  - repeat constructor.
  - destruct (String.leb x z) eqn:Hxz.
    + constructor; [now constructor | now constructor].
    + constructor; [assumption|].
      assert (Hzx : String.leb z x = true).
      { destruct (String.leb_total x z) as [H|H]; [congruence | assumption]. }
      destruct Hhead as [|z' r' Hzz']; cbn [insert_sorted].
      * now constructor.
      * destruct (String.leb x z'); now constructor.
Qed.

Lemma insert_sorted_NoDup (x : string) (l : list string) :
  ~ In x l -> NoDup l -> NoDup (insert_sorted x l).
Proof.
  induction l as [|z r IH]; cbn [insert_sorted]; intros Hx Hl.
  - repeat constructor. exact Hx.
  - destruct (String.leb x z).
    + now constructor.
    + inversion Hl as [|? ? Hz Hr]; subst. constructor.
      * rewrite insert_sorted_In. intros [-> | Hin]; [|contradiction].
        apply Hx. now left.
      * apply IH; [|assumption]. intros Hin. apply Hx. now right.
Qed.

Lemma sort_In (y : string) (l : list string) : In y (sort l) <-> In y l.
Proof.
  induction l as [|x r IH]; [reflexivity|].
  unfold sort in *. cbn [fold_right]. rewrite insert_sorted_In, IH.
  simpl. intuition congruence.
Qed.

(** X19. The tags kept by the dialogs are the tags given, each once, in the
    order of [str]: no tag is lost, none is made up, none comes twice, and
    each is at most the next one. *)
Theorem kept_tags_are_sorted_and_unique (check_list : list string) :
  Sorted (fun a b => String.leb a b = true)
         (keep_sorted_unique_values check_list) /\
  NoDup (keep_sorted_unique_values check_list) /\
  forall tag,
    In tag (keep_sorted_unique_values check_list) <-> In tag check_list.
Proof.
  unfold keep_sorted_unique_values.
  assert (Hunique := NoDup_nodup string_dec check_list).
  split; [|split].
  - clear Hunique. induction (nodup string_dec check_list) as [|x r IH].
    + constructor.
    + apply (insert_sorted_Sorted x (sort r) IH).
  - induction Hunique as [|x r Hx Hr IH].
    + constructor.
    + apply (insert_sorted_NoDup x (sort r)); [|exact IH].
      now rewrite sort_In.
  - intros tag. now rewrite sort_In, nodup_In.
Qed.

End StatAnalysisFacts.

(* ================================================================== *)
(** * [build_query] on the trees of the data model *)
(* ================================================================== *)

Lemma fields_of_a_tree_resolve (t : FilterNode) (dt : list (string * string)) :
  exists fif, fields_in_filters (to_dict t) dt = Ok fif.
Proof.
  unfold fields_in_filters. rewrite flatten_leaves.
  apply mapM_returns_iff. apply Forall_forall. intros i Hi.
  apply in_map_iff in Hi as (leaf & <- & Hleaf).
  pose proof (leaves_are_conditions t) as Hconditions.
  rewrite Forall_forall in Hconditions.
  destruct (Hconditions leaf Hleaf) as (f & o & v & ->).
  cbn. apply field_ref_resolves.
Qed.

(** X20. For fields given by name, no ordering and a well-formed filter tree,
    [build_query] returns a query exactly when [filters_to_sql] returns a
    text for the tree: the columns, the fields of the filters, the joins, the
    grouping and the limit never make it fail, whatever the source, the
    tables and the samples. *)
Theorem query_of_a_well_formed_tree_is_built_iff (names : list string)
  (source : string) (t : FilterNode) (order_desc : bool) (limit offset : pyval)
  (group_by : list string) (dt : list (string * string))
  (sids : list (string * Z)) :
  (exists q,
     build_query (map PStr names) source (to_dict t) PNone order_desc limit
                 offset group_by dt sids = Ok q)
  <-> exists text, filters_to_sql (to_dict t) dt = Ok text.
Proof.
  rewrite build_query_render, build_query_clauses_eq.
  destruct (build_query_of_names_returns names source order_desc limit offset
              group_by dt sids) as [cs0 H0].
  apply build_query_clauses_inv in H0
    as (sf & _ & _ & _ & _ & _ & Hsf & _).
  destruct (fields_of_a_tree_resolve t dt) as [fif Hfif].
  rewrite Hsf, Hfif. cbn [bind]. rewrite samples_skip_text.
  assert (Hsmp : samples (map PStr names) = Ok []).
  { rewrite <- (app_nil_r (map PStr names)). apply samples_skip_text. }
  rewrite Hsmp. cbn [bind]. unfold where_part.
  assert (Htree : truthy (to_dict t) = true) by (destruct t; reflexivity).
  rewrite Htree.
  destruct (filters_to_sql (to_dict t) dt) as [text|e]; cbn [bind].
  - split; intros _; eexists; reflexivity.
  - split; intros [x H]; discriminate H.
Qed.

Lemma query_of_a_well_formed_tree_is_built_iff_witness :
  let t := LogicNode AND [ConditionNode (Name "gene") "has" (Scalar (SStr "CFTR"));
                          ConditionNode (Name "pos") ">" (Scalar (SInt 10))] in
  build_query [PStr "chr"] "variants" (to_dict t) PNone true (PInt 50) (PInt 0)
              [] [] []
  = Ok ("SELECT `variants`.`id`,`chr` FROM variants"
        ++ " WHERE (`gene` LIKE '%CFTR%' AND `pos` > 10) LIMIT 50 OFFSET 0") /\
  ((exists q,
      build_query (map PStr ["chr"]) "variants" (to_dict t) PNone true (PInt 50)
                  (PInt 0) [] [] [] = Ok q)
   <-> exists text, filters_to_sql (to_dict t) [] = Ok text).
Proof.
  split; [reflexivity|].
  apply (query_of_a_well_formed_tree_is_built_iff ["chr"] "variants"
           (LogicNode AND
              [ConditionNode (Name "gene") "has" (Scalar (SStr "CFTR"));
               ConditionNode (Name "pos") ">" (Scalar (SInt 10))])
           true (PInt 50) (PInt 0) [] [] []).
Defined.
